(** * G1 epoch synchronization: a shallow embedding of G1EpochSynchronizer

    The development follows gc/g1/g1EpochSynchronizer.{hpp,cpp},
    gc/g1/g1EpochUpdater.inline.hpp, gc/g1/g1EpochResetTask.cpp and
    gc/g1/g1EpochSynchronizerStats.{hpp,cpp}.  The repository holds three
    generations of the synchronizer:

    - the wrap-aware generation that escalates through asynchronous
      handshakes (g1EpochSynchronizer.cpp), module [AsyncHandshake];
    - the wrap-aware generation that escalates by arming local polls
      (second half of g1EpochSynchronizer.hpp), module [ArmPoll];
    - the native-comparison generation with the safepoint reset
      (the unnamed translation unit), module [NativeCompare].

    Machine integers are [Z] with the wrap-around written out.  Every
    operation is modelled on one sequentially consistent interleaving: an
    atomic load, add or compare-and-exchange is one step on the shared
    [World]; what other threads do between two steps of the initiator is an
    explicit input where the code waits for it (see [Tick]) and between the
    load and the compare-and-exchange of [update_global_frontier] (see
    [update_global_frontier_raced]). *)

From Stdlib Require Import ZArith Lia Bool List.
From stdpp Require Import base list.
Import ListNotations.

Local Open Scope Z_scope.

(** ** Build and platform parameters *)

(** [BitsPerWord] is the width of [uintx] and [size_t] (pointer width);
    [ASSERT] tells a debug build (where [DEBUG_ONLY] code and [assert] are
    compiled in) from a release build. *)
Class Platform : Set := {
  BitsPerWord : positive;
  ASSERT : bool
}.

Definition LP64_debug : Platform := {| BitsPerWord := 64; ASSERT := true |}.
Definition LP64_release : Platform := {| BitsPerWord := 64; ASSERT := false |}.
Definition ILP32_debug : Platform := {| BitsPerWord := 32; ASSERT := true |}.

(** ** Unsigned pointer-width arithmetic *)

Section Uintx.
Context {P : Platform}.

Definition uintx_modulus : Z := 2 ^ Z.pos BitsPerWord.

(** Conversion of a mathematical integer to [uintx]. *)
Definition to_uintx (x : Z) : Z := x mod uintx_modulus.

(** [const uintx max_uintx = (uintx)-1;] *)
Definition max_uintx : Z := to_uintx (-1).

Definition uintx_add (a b : Z) : Z := to_uintx (a + b).
Definition uintx_sub (a b : Z) : Z := to_uintx (a - b).

Definition is_uintx (x : Z) : Prop := 0 <= x < uintx_modulus.

(** [G1EpochSynchronizer::frontier_happens_before]:
    [return (f1 - f2) > (max_uintx / 2);] *)
Definition frontier_happens_before (f1 f2 : Z) : bool :=
  uintx_sub f1 f2 >? max_uintx / 2.

(** [MIN2] on [uintx]. *)
Definition MIN2 (a b : Z) : Z := if a <? b then a else b.

(** Half of the modulus, [2 ^ (BitsPerWord - 1)]. *)
Definition uintx_half : Z := 2 ^ (Z.pos BitsPerWord - 1).

End Uintx.

(** ** [jlong] arithmetic (64-bit two's complement, whatever the word size) *)

Definition to_jlong (x : Z) : Z := (x + 2 ^ 63) mod 2 ^ 64 - 2 ^ 63.
Definition jlong_add (a b : Z) : Z := to_jlong (a + b).
Definition jlong_sub (a b : Z) : Z := to_jlong (a - b).
Definition is_jlong (x : Z) : Prop := - 2 ^ 63 <= x < 2 ^ 63.

(** Modelled from the spec: [NANOSECS_PER_MILLISEC] of
    utilities/globalDefinitions.hpp, which is not among the sources.
    Section 4.D gives the release timeout [3 * NANOSECS_PER_MILLISEC] as
    3 ms, on a clock that counts nanoseconds. *)
Definition NANOSECS_PER_MILLISEC : Z := 1000000.

(** ** Threads and the shared world *)

(** What the synchronizer reads and writes of a [JavaThread]. *)
Record JavaThread : Set := {
  epoch : Z;                 (* G1ThreadLocalData::epoch(thread) *)
  has_operation : bool;      (* handshake_state()->has_operation() *)
  local_poll_armed : bool;   (* set by SafepointMechanism::arm_local_poll *)
  blocked : bool             (* parked in a native or blocked state *)
}.

Definition set_epoch (e : Z) (t : JavaThread) : JavaThread :=
  {| epoch := e; has_operation := has_operation t;
     local_poll_armed := local_poll_armed t; blocked := blocked t |}.

Definition set_has_operation (b : bool) (t : JavaThread) : JavaThread :=
  {| epoch := epoch t; has_operation := b;
     local_poll_armed := local_poll_armed t; blocked := blocked t |}.

Definition set_local_poll_armed (b : bool) (t : JavaThread) : JavaThread :=
  {| epoch := epoch t; has_operation := has_operation t;
     local_poll_armed := b; blocked := blocked t |}.

(** [Thread::current()].  A Java thread is named by its position in the
    Java thread list. *)
Inductive Thread : Set :=
| JavaThreadAt (i : nat)
| ConcurrentGCThread
| VMThread.

Definition is_Java_thread (t : Thread) : bool :=
  match t with JavaThreadAt _ => true | _ => false end.
Definition is_ConcurrentGC_thread (t : Thread) : bool :=
  match t with ConcurrentGCThread => true | _ => false end.
Definition is_VM_thread (t : Thread) : bool :=
  match t with VMThread => true | _ => false end.

Definition is_thread_at (i : nat) (t : Thread) : bool :=
  match t with JavaThreadAt j => Nat.eqb i j | _ => false end.

(** The static fields of [G1EpochSynchronizer] together with the part of the
    VM the protocol touches. *)
Record World : Set := {
  global_epoch : Z;                    (* _global_epoch._counter *)
  global_frontier : Z;                 (* _global_frontier *)
  pending_sync : Z;                    (* _pending_sync, debug builds only *)
  reset_all_epoch_scheduled : bool;    (* _reset_all_epoch_scheduled *)
  java_threads : list JavaThread;      (* the Java thread list *)
  deferred_buffer : list Z;            (* required frontiers of deferred initiators *)
  current_thread : Thread;             (* Thread::current() *)
  at_safepoint : bool                  (* SafepointSynchronize::is_at_safepoint() *)
}.

Definition set_global_epoch (v : Z) (w : World) : World :=
  {| global_epoch := v; global_frontier := global_frontier w;
     pending_sync := pending_sync w;
     reset_all_epoch_scheduled := reset_all_epoch_scheduled w;
     java_threads := java_threads w; deferred_buffer := deferred_buffer w;
     current_thread := current_thread w; at_safepoint := at_safepoint w |}.

Definition set_global_frontier (v : Z) (w : World) : World :=
  {| global_epoch := global_epoch w; global_frontier := v;
     pending_sync := pending_sync w;
     reset_all_epoch_scheduled := reset_all_epoch_scheduled w;
     java_threads := java_threads w; deferred_buffer := deferred_buffer w;
     current_thread := current_thread w; at_safepoint := at_safepoint w |}.

Definition set_pending_sync (v : Z) (w : World) : World :=
  {| global_epoch := global_epoch w; global_frontier := global_frontier w;
     pending_sync := v;
     reset_all_epoch_scheduled := reset_all_epoch_scheduled w;
     java_threads := java_threads w; deferred_buffer := deferred_buffer w;
     current_thread := current_thread w; at_safepoint := at_safepoint w |}.

Definition set_reset_all_epoch_scheduled (b : bool) (w : World) : World :=
  {| global_epoch := global_epoch w; global_frontier := global_frontier w;
     pending_sync := pending_sync w;
     reset_all_epoch_scheduled := b;
     java_threads := java_threads w; deferred_buffer := deferred_buffer w;
     current_thread := current_thread w; at_safepoint := at_safepoint w |}.

Definition set_java_threads (ts : list JavaThread) (w : World) : World :=
  {| global_epoch := global_epoch w; global_frontier := global_frontier w;
     pending_sync := pending_sync w;
     reset_all_epoch_scheduled := reset_all_epoch_scheduled w;
     java_threads := ts; deferred_buffer := deferred_buffer w;
     current_thread := current_thread w; at_safepoint := at_safepoint w |}.

Definition set_deferred_buffer (b : list Z) (w : World) : World :=
  {| global_epoch := global_epoch w; global_frontier := global_frontier w;
     pending_sync := pending_sync w;
     reset_all_epoch_scheduled := reset_all_epoch_scheduled w;
     java_threads := java_threads w; deferred_buffer := b;
     current_thread := current_thread w; at_safepoint := at_safepoint w |}.

(** ** The monad of VM code: shared state, and [None] when an [assert] of a
    debug build fails (the VM aborts). *)

Definition M (A : Type) : Type := World -> option (A * World).

Definition m_ret {A : Type} (a : A) : M A := fun w => Some (a, w).

Definition m_bind {A B : Type} (c : M A) (k : A -> M B) : M B :=
  fun w => match c w with
           | Some (a, w') => k a w'
           | None => None
           end.

Definition m_get {A : Type} (f : World -> A) : M A := fun w => Some (f w, w).

Definition m_modify (f : World -> World) : M unit := fun w => Some (tt, f w).

Notation "x <- c ;; k" := (m_bind c (fun x => k))
  (at level 100, c at next level, right associativity).
Notation "c ;; k" := (m_bind c (fun _ => k))
  (at level 100, right associativity).

Section Runtime.
Context {P : Platform}.

(** [assert(cond, ...)]: compiled out of release builds. *)
Definition assert_that (cond : bool) : M unit :=
  fun w => if ASSERT && negb cond then None else Some (tt, w).

Definition assert_not_at_safepoint : M unit :=
  s <- m_get at_safepoint ;; assert_that (negb s).

Definition assert_at_safepoint : M unit :=
  s <- m_get at_safepoint ;; assert_that s.

(** [Atomic::add(&_global_epoch._counter, 1)]: returns the updated value. *)
Definition Atomic_add_global_epoch (v : Z) : M Z :=
  e <- m_get global_epoch ;;
  m_modify (set_global_epoch (uintx_add e v)) ;;
  m_ret (uintx_add e v).

(** [Atomic::cmpxchg(&_global_frontier, compare, exchange)]: returns the
    value found. *)
Definition Atomic_cmpxchg_global_frontier (compare exchange : Z) : M Z :=
  old <- m_get global_frontier ;;
  (if old =? compare then m_modify (set_global_frontier exchange)
   else m_ret tt) ;;
  m_ret old.

(** [Atomic::load_acquire(&G1ThreadLocalData::epoch(thread))]; a thread
    that is not on the list is not a Java thread, which the closures
    assert. *)
Definition load_epoch (i : nat) : M Z :=
  fun w => match java_threads w !! i with
           | Some t => Some (epoch t, w)
           | None => None
           end.

Definition modify_thread (i : nat) (f : JavaThread -> JavaThread) : M unit :=
  m_modify (fun w => set_java_threads (alter f i (java_threads w)) w).

(** [thread == Thread::current()] *)
Definition Thread_eqb (a b : Thread) : bool :=
  match a, b with
  | JavaThreadAt i, JavaThreadAt j => Nat.eqb i j
  | ConcurrentGCThread, ConcurrentGCThread => true
  | VMThread, VMThread => true
  | _, _ => false
  end.

(** [G1EpochUpdater::update_epoch_internal] of
    gc/g1/g1EpochUpdater.inline.hpp: outside a safepoint, the epoch of a
    Java thread is brought up to [global_epoch], which it must not exceed
    (a native [<=] on [uintx]).  A thread that is not a Java thread, or is
    not on the Java thread list, has no epoch in the [World]: nothing is
    compared or stored for it. *)
Definition update_epoch_internal (thread : Thread) : M unit :=
  assert_not_at_safepoint ;;
  assert_that (is_Java_thread thread) ;;
  match thread with
  | JavaThreadAt i =>
      global_epoch <- m_get global_epoch ;;
      ts <- m_get java_threads ;;
      assert_that (from_option (fun t => epoch t <=? global_epoch) true (ts !! i)) ;;
      modify_thread i (set_epoch global_epoch)
  | _ => m_ret tt
  end.

(** [G1EpochUpdater::update_epoch_self] *)
Definition update_epoch_self (thread : Thread) : M unit :=
  self <- m_get current_thread ;;
  assert_that (Thread_eqb thread self) ;;
  update_epoch_internal thread.

(** [G1EpochUpdater::update_epoch_self_or_other] *)
Definition update_epoch_self_or_other (thread : Thread) : M unit :=
  update_epoch_internal thread.

(** [_SYNCHRONIZE_WAIT_NS = DEBUG_ONLY(3) NOT_DEBUG(3 * NANOSECS_PER_MILLISEC)] *)
Definition _SYNCHRONIZE_WAIT_NS : Z :=
  if ASSERT then 3 else 3 * NANOSECS_PER_MILLISEC.

End Runtime.

(** What the rest of the VM does while the initiator is in
    [SpinYield::wait()], and what the initiator reads at the head of one
    turn of its spin loop. *)
Record Tick : Type := {
  elapsed_counter : Z;        (* os::elapsed_counter() *)
  should_yield : bool;        (* SuspendibleThreadSet::should_yield() *)
  mutators : list JavaThread -> list JavaThread
}.

(** The initiator: [G1EpochSynchronizer] is a value object that holds one
    [uintx], the same in the three generations. *)
Record G1EpochSynchronizer : Set := { required_frontier : Z }.

(** ** Code shared by the two wrap-aware generations *)

Module WrapAware.
Section Generation.
Context {P : Platform}.

(** [G1EpochSynchronizer::start_synchronizing] *)
Definition start_synchronizing : M Z :=
  assert_not_at_safepoint ;;
  (if ASSERT
   then m_modify (fun w => set_pending_sync (uintx_add (pending_sync w) 1) w)
   else m_ret tt) ;;
  Atomic_add_global_epoch 1.

(** [G1EpochSynchronizer::G1EpochSynchronizer(bool start_sync)] *)
Definition new_G1EpochSynchronizer (start_sync : bool) : M G1EpochSynchronizer :=
  if start_sync
  then f <- start_synchronizing ;; m_ret {| required_frontier := f |}
  else m_ret {| required_frontier := 0 |}.

(** [G1EpochSynchronizer::update_global_frontier] *)
Definition update_global_frontier (latest_frontier : Z) : M unit :=
  global_frontier <- m_get global_frontier ;;
  if frontier_happens_before global_frontier latest_frontier
  then Atomic_cmpxchg_global_frontier global_frontier latest_frontier ;; m_ret tt
  else m_ret tt.

(** [G1EpochSynchronizer::check_frontier_helper] *)
Definition check_frontier_helper (latest_frontier required_frontier : Z) : M bool :=
  if negb (frontier_happens_before latest_frontier required_frontier)
  then update_global_frontier latest_frontier ;; m_ret true
  else m_ret false.

(** [G1EpochSynchronizer::dec_pending_sync], [NOT_DEBUG_RETURN] *)
Definition dec_pending_sync : M unit :=
  if ASSERT
  then m_modify (fun w => set_pending_sync (uintx_sub (pending_sync w) 1) w)
  else m_ret tt.

(** [G1EpochSynchronizer::verify_before_collection_pause] (debug only) *)
Definition verify_before_collection_pause (deferred_length : Z) : M unit :=
  p <- m_get pending_sync ;;
  assert_that (p =? deferred_length) ;;
  m_modify (set_pending_sync 0).

End Generation.
End WrapAware.

(** ** g1EpochSynchronizer.cpp: escalation by asynchronous handshake *)

Module AsyncHandshake.
Section Generation.
Context {P : Platform}.

Record G1FindMinEpochAndCollectThreadsClosure : Set := {
  min_epoch : Z;
  collect_threads : bool;
  closure_required_frontier : Z;
  threads : list nat
}.

Definition new_closure (required_frontier : Z) (collect_threads : bool)
  : G1FindMinEpochAndCollectThreadsClosure :=
  {| min_epoch := max_uintx; collect_threads := collect_threads;
     closure_required_frontier := required_frontier; threads := [] |}.

(** [G1FindMinEpochAndCollectThreadsClosure::do_thread]; [i] is the
    position of [thread] on the list. *)
Definition do_thread (cl : G1FindMinEpochAndCollectThreadsClosure)
    (i : nat) (thread : JavaThread) : G1FindMinEpochAndCollectThreadsClosure :=
  let epoch := epoch thread in
  let m := if frontier_happens_before epoch (min_epoch cl)
           then epoch else min_epoch cl in
  let ts := if collect_threads cl &&
               frontier_happens_before epoch (closure_required_frontier cl)
            then threads cl ++ [i] else threads cl in
  {| min_epoch := m; collect_threads := collect_threads cl;
     closure_required_frontier := closure_required_frontier cl;
     threads := ts |}.

(** The loops [for (JavaThreadIterator ...) cl.do_thread(jt)]. *)
Fixpoint java_threads_do (cl : G1FindMinEpochAndCollectThreadsClosure)
    (i : nat) (ts : list JavaThread) : G1FindMinEpochAndCollectThreadsClosure :=
  match ts with
  | [] => cl
  | t :: ts' => java_threads_do (do_thread cl i t) (S i) ts'
  end.

(** Modelled from the spec: [Handshake::try_execute] with the no-op
    [G1AsyncEpochHandshakeClosure] (runtime/handshake.cpp is not among the
    sources).  Sections 4.D and 8, scenario 2: the handshake runs at once
    on a target parked in a native or blocked state, which brings the
    target's epoch up to date; on any other target it stays pending until
    the target polls. *)
Definition Handshake_try_execute (jt : nat) : M unit :=
  ts <- m_get java_threads ;;
  match ts !! jt with
  | Some t => if blocked t then update_epoch_self_or_other (JavaThreadAt jt)
              else modify_thread jt (set_has_operation true)
  | None => m_ret tt
  end.

(** The second loop of [async_handshake], over the collected threads. *)
Fixpoint post_handshakes (self : Thread) (targets : list nat) (count : Z) : M Z :=
  match targets with
  | [] => m_ret count
  | jt :: rest =>
      assert_that (negb (is_thread_at jt self)) ;;
      ts <- m_get java_threads ;;
      if negb (from_option has_operation false (ts !! jt))
      then Handshake_try_execute jt ;;
           post_handshakes self rest (uintx_add count 1)
      else post_handshakes self rest count
  end.

(** [G1EpochSynchronizer::async_handshake] *)
Definition async_handshake (this : G1EpochSynchronizer) : M Z :=
  self <- m_get current_thread ;;
  let required_frontier := required_frontier this in
  ts <- m_get java_threads ;;
  let cl := java_threads_do (new_closure required_frontier true) 0 ts in
  synced <- WrapAware.check_frontier_helper (min_epoch cl) required_frontier ;;
  if synced then m_ret 0
  else if Nat.eqb (length (threads cl)) 0 then m_ret 0
  else post_handshakes self (threads cl) 0.

(** [G1EpochSynchronizer::check_synchronized_inner] *)
Definition check_synchronized_inner (this : G1EpochSynchronizer) : M bool :=
  assert_not_at_safepoint ;;
  thread <- m_get current_thread ;;
  (if is_Java_thread thread then update_epoch_self thread
   else assert_that (is_ConcurrentGC_thread thread)) ;;
  global_frontier <- m_get global_frontier ;;
  let required_frontier := required_frontier this in
  if negb (frontier_happens_before global_frontier required_frontier)
  then m_ret true
  else
    ts <- m_get java_threads ;;
    let cl := java_threads_do (new_closure required_frontier false) 0 ts in
    WrapAware.check_frontier_helper (min_epoch cl) required_frontier.

(** [G1EpochSynchronizer::check_synchronized] *)
Definition check_synchronized (this : G1EpochSynchronizer) : M bool :=
  result <- check_synchronized_inner this ;;
  (if result then WrapAware.dec_pending_sync else m_ret tt) ;;
  m_ret result.

(** The loop [while (!check_synchronized()) { ... yield.wait(); }] of
    [synchronize].  One [Tick] is consumed by each turn; [None] is
    returned when the ticks run out with the loop still turning. *)
Fixpoint spin (this : G1EpochSynchronizer) (start_timestamp : Z)
    (ticks : list Tick) : M (option bool) :=
  synced <- check_synchronized this ;;
  if synced then m_ret (Some true)
  else match ticks with
       | [] => m_ret None
       | t :: ticks' =>
           let elapsed := jlong_sub (elapsed_counter t) start_timestamp in
           if elapsed >? _SYNCHRONIZE_WAIT_NS then m_ret (Some false)
           else
             m_modify (fun w => set_java_threads (mutators t (java_threads w)) w) ;;
             spin this start_timestamp ticks'
       end.

(** [G1EpochSynchronizer::synchronize]; [start_timestamp] is the reading
    of [os::elapsed_counter()] taken before the loop. *)
Definition synchronize (this : G1EpochSynchronizer) (start_timestamp : Z)
    (ticks : list Tick) : M (option bool) :=
  synced <- check_synchronized this ;;
  if synced then m_ret (Some true)
  else
    threads <- async_handshake this ;;
    if threads =? 0
    then WrapAware.dec_pending_sync ;; m_ret (Some true)
    else spin this start_timestamp ticks.

End Generation.
End AsyncHandshake.

(** ** Second generation of g1EpochSynchronizer.hpp: escalation by arming
    the local polls *)

Module ArmPoll.
Section Generation.
Context {P : Platform}.

Record G1FindMinEpochAndArmPollClosure : Set := {
  arm_poll : bool;
  closure_required_frontier : Z;
  min_epoch : Z;
  armed_threads : Z;
  report_straggler : bool
}.

Definition new_closure (required_frontier : Z) (arm_poll report_straggler : bool)
  : G1FindMinEpochAndArmPollClosure :=
  {| arm_poll := arm_poll; closure_required_frontier := required_frontier;
     min_epoch := max_uintx; armed_threads := 0;
     report_straggler := report_straggler |}.

(** Modelled from the spec: [HandshakeState::DelegateProcessingScope] is
    not among the sources.  Section 4.C, step 3c: the scope is granted
    ([_processed]) exactly when the target is parked in a blocking or
    native state. *)
Definition DelegateProcessingScope_processed (i : nat) : M bool :=
  ts <- m_get java_threads ;;
  m_ret (from_option blocked false (ts !! i)).

(** [G1FindMinEpochAndArmPollClosure::do_thread]; the last [if] of the
    source only logs. *)
Definition do_thread (cl : G1FindMinEpochAndArmPollClosure) (i : nat)
  : M G1FindMinEpochAndArmPollClosure :=
  epoch <- load_epoch i ;;
  r <- (if arm_poll cl &&
           frontier_happens_before epoch (closure_required_frontier cl)
        then
          self <- m_get current_thread ;;
          assert_that (negb (is_thread_at i self)) ;;
          modify_thread i (set_local_poll_armed true) ;;
          let armed := uintx_add (armed_threads cl) 1 in
          processed <- DelegateProcessingScope_processed i ;;
          if processed
          then update_epoch_self_or_other (JavaThreadAt i) ;;
               epoch' <- load_epoch i ;;
               m_ret (epoch', armed)
          else m_ret (epoch, armed)
        else m_ret (epoch, armed_threads cl)) ;;
  let epoch := fst r in
  let m := if frontier_happens_before epoch (min_epoch cl)
           then epoch else min_epoch cl in
  m_ret {| arm_poll := arm_poll cl;
           closure_required_frontier := closure_required_frontier cl;
           min_epoch := m; armed_threads := snd r;
           report_straggler := report_straggler cl |}.

(** [for (JavaThreadIteratorWithHandle jtiwh; ...) cl.do_thread(thread)] *)
Fixpoint java_threads_do (cl : G1FindMinEpochAndArmPollClosure)
    (idx : list nat) : M G1FindMinEpochAndArmPollClosure :=
  match idx with
  | [] => m_ret cl
  | i :: idx' => cl' <- do_thread cl i ;; java_threads_do cl' idx'
  end.

Definition all_java_threads : M (list nat) :=
  ts <- m_get java_threads ;; m_ret (seq 0 (length ts)).

(** [G1EpochSynchronizer::arm_local_polls] *)
Definition arm_local_polls (this : G1EpochSynchronizer) : M Z :=
  let required_frontier := required_frontier this in
  idx <- all_java_threads ;;
  cl <- java_threads_do (new_closure required_frontier true false) idx ;;
  let armed := armed_threads cl in
  synced <- WrapAware.check_frontier_helper (min_epoch cl) required_frontier ;;
  if synced then assert_that (armed =? 0) ;; m_ret 0
  else m_ret armed.

(** [G1EpochSynchronizer::check_synchronized_inner(bool report_straggler)] *)
Definition check_synchronized_inner (this : G1EpochSynchronizer)
    (report_straggler : bool) : M bool :=
  assert_not_at_safepoint ;;
  thread <- m_get current_thread ;;
  (if is_Java_thread thread then update_epoch_self thread
   else assert_that (is_ConcurrentGC_thread thread)) ;;
  global_frontier <- m_get global_frontier ;;
  let required_frontier := required_frontier this in
  if negb (frontier_happens_before global_frontier required_frontier)
  then m_ret true
  else
    idx <- all_java_threads ;;
    cl <- java_threads_do (new_closure required_frontier false report_straggler) idx ;;
    WrapAware.check_frontier_helper (min_epoch cl) required_frontier.

(** [G1EpochSynchronizer::check_synchronized(bool report_straggler)] *)
Definition check_synchronized (this : G1EpochSynchronizer)
    (report_straggler : bool) : M bool :=
  result <- check_synchronized_inner this report_straggler ;;
  (if result then WrapAware.dec_pending_sync else m_ret tt) ;;
  m_ret result.

(** The spin loop of [synchronize].  [report_straggler] is the default
    argument of the header of this generation, which only selects a log
    line. *)
Fixpoint spin (this : G1EpochSynchronizer) (report_straggler : bool)
    (start_timestamp : Z) (ticks : list Tick) : M (option bool) :=
  synced <- check_synchronized this report_straggler ;;
  if synced then m_ret (Some true)
  else match ticks with
       | [] => m_ret None
       | t :: ticks' =>
           let elapsed := jlong_sub (elapsed_counter t) start_timestamp in
           if should_yield t || (elapsed >? _SYNCHRONIZE_WAIT_NS)
           then m_ret (Some false)
           else
             m_modify (fun w => set_java_threads (mutators t (java_threads w)) w) ;;
             spin this report_straggler start_timestamp ticks'
       end.

(** [G1EpochSynchronizer::synchronize] *)
Definition synchronize (this : G1EpochSynchronizer) (report_straggler : bool)
    (start_timestamp : Z) (ticks : list Tick) : M (option bool) :=
  synced <- check_synchronized this report_straggler ;;
  if synced then m_ret (Some true)
  else
    threads <- arm_local_polls this ;;
    if threads =? 0
    then WrapAware.dec_pending_sync ;; m_ret (Some true)
    else spin this report_straggler start_timestamp ticks.

End Generation.
End ArmPoll.

(** ** The native-comparison generation, with the safepoint reset *)

Module NativeCompare.
Section Generation.
Context {P : Platform}.

Record G1FindMinEpochAndCollectThreadsClosure : Set := {
  min_epoch : Z;
  collect_threads : bool;
  closure_required_frontier : Z;
  threads : list nat
}.

Definition new_closure (required_frontier : Z) (collect_threads : bool)
  : G1FindMinEpochAndCollectThreadsClosure :=
  {| min_epoch := max_uintx; collect_threads := collect_threads;
     closure_required_frontier := required_frontier; threads := [] |}.

(** [_min_epoch = MIN2(_min_epoch, epoch);] and [epoch < _required_frontier] *)
Definition do_thread (cl : G1FindMinEpochAndCollectThreadsClosure)
    (i : nat) (thread : JavaThread) : G1FindMinEpochAndCollectThreadsClosure :=
  let epoch := epoch thread in
  let ts := if collect_threads cl && (epoch <? closure_required_frontier cl)
            then threads cl ++ [i] else threads cl in
  {| min_epoch := MIN2 (min_epoch cl) epoch;
     collect_threads := collect_threads cl;
     closure_required_frontier := closure_required_frontier cl;
     threads := ts |}.

Fixpoint java_threads_do (cl : G1FindMinEpochAndCollectThreadsClosure)
    (i : nat) (ts : list JavaThread) : G1FindMinEpochAndCollectThreadsClosure :=
  match ts with
  | [] => cl
  | t :: ts' => java_threads_do (do_thread cl i t) (S i) ts'
  end.

(** [G1EpochSynchronizer::update_global_frontier] *)
Definition update_global_frontier (latest_frontier : Z) : M unit :=
  global_frontier <- m_get global_frontier ;;
  if global_frontier <? latest_frontier
  then Atomic_cmpxchg_global_frontier global_frontier latest_frontier ;; m_ret tt
  else m_ret tt.

(** [G1EpochSynchronizer::check_frontier_helper] *)
Definition check_frontier_helper (latest_frontier required_frontier : Z) : M bool :=
  if latest_frontier >=? required_frontier
  then update_global_frontier latest_frontier ;; m_ret true
  else m_ret false.

(** [G1EpochSynchronizer::check_synchronized_inner] *)
Definition check_synchronized_inner (this : G1EpochSynchronizer) : M bool :=
  assert_not_at_safepoint ;;
  thread <- m_get current_thread ;;
  (if is_Java_thread thread then update_epoch_self thread
   else assert_that (is_ConcurrentGC_thread thread)) ;;
  global_frontier <- m_get global_frontier ;;
  let required_frontier := required_frontier this in
  if global_frontier >=? required_frontier
  then m_ret true
  else
    ts <- m_get java_threads ;;
    let cl := java_threads_do (new_closure required_frontier false) 0 ts in
    check_frontier_helper (min_epoch cl) required_frontier.

(** [G1ResetEpochClosure::do_thread]: [G1ThreadLocalData::epoch(thread) = 0;] *)
Definition G1ResetEpochClosure_do_thread (thread : JavaThread) : JavaThread :=
  set_epoch 0 thread.

(** [Threads::java_threads_do(&cl)] with the reset closure. *)
Definition Threads_java_threads_do (f : JavaThread -> JavaThread) : M unit :=
  m_modify (fun w => set_java_threads (map f (java_threads w)) w).

(** Modelled from the spec:
    [G1DirtyCardQueueSet::reset_epoch_in_deferred_buffer] is not among the
    sources.  Section 4.E, step 3: the deferred buffer, of size [D], is
    drained; [D] is the [size_t] the call returns. *)
Definition reset_epoch_in_deferred_buffer : M Z :=
  b <- m_get deferred_buffer ;;
  m_modify (set_deferred_buffer []) ;;
  m_ret (to_uintx (Z.of_nat (length b))).

(** [G1EpochSynchronizer::reset_all_epoch] *)
Definition reset_all_epoch : M unit :=
  assert_at_safepoint ;;
  self <- m_get current_thread ;;
  assert_that (is_VM_thread self) ;;
  m_modify (set_global_epoch 0) ;;
  m_modify (set_global_frontier 0) ;;
  deferred_sync <- reset_epoch_in_deferred_buffer ;;
  Threads_java_threads_do G1ResetEpochClosure_do_thread ;;
  m_modify (set_reset_all_epoch_scheduled false) ;;
  pending <- m_get pending_sync ;;
  assert_that (pending =? deferred_sync).

End Generation.
End NativeCompare.

(** ** g1EpochSynchronizerStats.{hpp,cpp} *)

(** [Tickspan] (utilities/ticks.hpp) is not among the sources: it is taken
    as a parameter, with the operations the statistics use.
    [Tickspan_valid] tells the representable values. *)
Class TickspanOps : Type := {
  Tickspan : Type;
  Tickspan_new : Tickspan;                               (* Tickspan() *)
  Tickspan_add : Tickspan -> Tickspan -> Tickspan;       (* operator+= *)
  Tickspan_sub : Tickspan -> Tickspan -> Tickspan;       (* operator-= *)
  Tickspan_valid : Tickspan -> Prop
}.

(** What the statistics need of the interval arithmetic. *)
Class TickspanLaws (T : TickspanOps) : Prop := {
  Tickspan_add_sub :
    forall a b, Tickspan_valid a -> Tickspan_sub (Tickspan_add a b) b = a;
  Tickspan_add_new :
    forall a, Tickspan_valid a -> Tickspan_add a Tickspan_new = a;
  Tickspan_new_add :
    forall a, Tickspan_valid a -> Tickspan_add Tickspan_new a = a
}.

(** A [Tickspan] held as a [jlong] count of ticks with two's complement
    wrap-around. *)
Definition jlong_Tickspan : TickspanOps :=
  {| Tickspan := Z; Tickspan_new := 0;
     Tickspan_add := jlong_add; Tickspan_sub := jlong_sub;
     Tickspan_valid := is_jlong |}.

Module Stats.
Section Stats.
Context {P : Platform} {T : TickspanOps}.

Record G1EpochSynchronizerStats : Type := {
  fast_sync_time : Tickspan;
  deferred_sync_time : Tickspan;
  fast_syncs : Z;
  deferred_syncs : Z
}.

(** [G1EpochSynchronizerStats::G1EpochSynchronizerStats()] *)
Definition new_G1EpochSynchronizerStats : G1EpochSynchronizerStats :=
  {| fast_sync_time := Tickspan_new; deferred_sync_time := Tickspan_new;
     fast_syncs := 0; deferred_syncs := 0 |}.

(** [operator+=] *)
Definition add_assign (this other : G1EpochSynchronizerStats)
  : G1EpochSynchronizerStats :=
  {| fast_sync_time := Tickspan_add (fast_sync_time this) (fast_sync_time other);
     deferred_sync_time :=
       Tickspan_add (deferred_sync_time this) (deferred_sync_time other);
     fast_syncs := uintx_add (fast_syncs this) (fast_syncs other);
     deferred_syncs := uintx_add (deferred_syncs this) (deferred_syncs other) |}.

(** [operator-=] *)
Definition sub_assign (this other : G1EpochSynchronizerStats)
  : G1EpochSynchronizerStats :=
  {| fast_sync_time := Tickspan_sub (fast_sync_time this) (fast_sync_time other);
     deferred_sync_time :=
       Tickspan_sub (deferred_sync_time this) (deferred_sync_time other);
     fast_syncs := uintx_sub (fast_syncs this) (fast_syncs other);
     deferred_syncs := uintx_sub (deferred_syncs this) (deferred_syncs other) |}.

(** [friend operator+(x, y) { return x += y; }] and [operator-] *)
Definition plus (x y : G1EpochSynchronizerStats) := add_assign x y.
Definition minus (x y : G1EpochSynchronizerStats) := sub_assign x y.

(** The values a stats object can hold: [size_t] counters in range and
    representable intervals. *)
Definition valid (x : G1EpochSynchronizerStats) : Prop :=
  Tickspan_valid (fast_sync_time x) /\ Tickspan_valid (deferred_sync_time x) /\
  is_uintx (fast_syncs x) /\ is_uintx (deferred_syncs x).

End Stats.
End Stats.

(** * Facts *)

(** ** Arithmetic of [uintx] and [jlong] *)

Section UintxFacts.
Context {P : Platform}.

Lemma uintx_modulus_half : uintx_modulus = 2 * uintx_half.
Proof.
  unfold uintx_modulus, uintx_half.
  rewrite <- Z.pow_succ_r by lia. f_equal. lia.
Qed.

Lemma uintx_half_pos : 0 < uintx_half.
Proof. unfold uintx_half. apply Z.pow_pos_nonneg; lia. Qed.

Lemma uintx_modulus_pos : 0 < uintx_modulus.
Proof. rewrite uintx_modulus_half. pose proof uintx_half_pos. lia. Qed.

Lemma to_uintx_range x : is_uintx (to_uintx x).
Proof. apply Z.mod_pos_bound, uintx_modulus_pos. Qed.

Lemma to_uintx_id x : is_uintx x -> to_uintx x = x.
Proof. intros Hx. apply Z.mod_small, Hx. Qed.

Lemma max_uintx_eq : max_uintx = uintx_modulus - 1.
Proof.
  unfold max_uintx, to_uintx. pose proof uintx_modulus_pos.
  symmetry. apply (Z.mod_unique_pos _ _ (-1)); lia.
Qed.

Lemma max_uintx_half : max_uintx / 2 = uintx_half - 1.
Proof.
  rewrite max_uintx_eq, uintx_modulus_half. pose proof uintx_half_pos.
  symmetry. apply (Z.div_unique_pos _ _ _ 1); lia.
Qed.

(** Subtraction of two in-range values wraps at most once. *)
Lemma uintx_sub_cases a b :
  is_uintx a -> is_uintx b ->
  uintx_sub a b = if b <=? a then a - b else a - b + uintx_modulus.
Proof.
  intros Ha Hb. unfold uintx_sub, to_uintx, is_uintx in *.
  destruct (Z.leb_spec b a).
  - apply Z.mod_small. lia.
  - symmetry. apply (Z.mod_unique_pos _ _ (-1)); lia.
Qed.

Lemma frontier_happens_before_true f1 f2 :
  frontier_happens_before f1 f2 = true <-> uintx_half <= uintx_sub f1 f2.
Proof.
  unfold frontier_happens_before. rewrite max_uintx_half.
  rewrite Z.gtb_ltb, Z.ltb_lt. lia.
Qed.

Lemma frontier_happens_before_false f1 f2 :
  frontier_happens_before f1 f2 = false <-> uintx_sub f1 f2 < uintx_half.
Proof.
  rewrite <- not_true_iff_false, frontier_happens_before_true. lia.
Qed.

Lemma frontier_happens_before_irrefl f : frontier_happens_before f f = false.
Proof.
  apply frontier_happens_before_false. unfold uintx_sub, to_uintx.
  rewrite Z.sub_diag, Z.mod_0_l.
  - apply uintx_half_pos.
  - pose proof uintx_modulus_pos. lia.
Qed.

Lemma is_uintx_max_uintx : is_uintx max_uintx.
Proof. apply to_uintx_range. Qed.

Lemma uintx_add_sub a b : is_uintx a -> uintx_sub (uintx_add a b) b = a.
Proof.
  intros Ha. unfold uintx_sub, uintx_add, to_uintx.
  rewrite Zminus_mod_idemp_l.
  replace (a + b - b) with a by lia. apply Z.mod_small, Ha.
Qed.

Lemma uintx_add_0_r a : is_uintx a -> uintx_add a 0 = a.
Proof.
  intros Ha. unfold uintx_add. rewrite Z.add_0_r. apply to_uintx_id, Ha.
Qed.

Lemma uintx_add_0_l a : is_uintx a -> uintx_add 0 a = a.
Proof. intros Ha. unfold uintx_add. apply to_uintx_id, Ha. Qed.

(** Within [max_uintx / 2] of one another, the wrap-aware order is the
    native one. *)
Lemma frontier_happens_before_native f1 f2 :
  is_uintx f1 -> is_uintx f2 -> Z.abs (f1 - f2) <= max_uintx / 2 ->
  frontier_happens_before f1 f2 = (f1 <? f2).
Proof.
  intros H1 H2 Hd. rewrite max_uintx_half in Hd.
  pose proof uintx_modulus_half as HM.
  destruct (Z.ltb_spec f1 f2) as [Hlt | Hge].
  - apply frontier_happens_before_true.
    rewrite uintx_sub_cases by assumption.
    destruct (Z.leb_spec f2 f1); lia.
  - apply frontier_happens_before_false.
    rewrite uintx_sub_cases by assumption.
    destruct (Z.leb_spec f2 f1); lia.
Qed.

End UintxFacts.

Lemma to_jlong_id x : is_jlong x -> to_jlong x = x.
Proof.
  unfold is_jlong, to_jlong. intros Hx.
  rewrite Z.mod_small by lia. lia.
Qed.

Lemma jlong_add_sub a b : is_jlong a -> jlong_sub (jlong_add a b) b = a.
Proof.
  intros Ha. unfold jlong_sub, jlong_add.
  rewrite <- (to_jlong_id a Ha) at 2. unfold to_jlong. f_equal.
  replace ((a + b + 2 ^ 63) mod 2 ^ 64 - 2 ^ 63 - b + 2 ^ 63)
    with ((a + b + 2 ^ 63) mod 2 ^ 64 - b) by lia.
  rewrite Zminus_mod_idemp_l. f_equal. lia.
Qed.

Lemma jlong_add_0_r a : is_jlong a -> jlong_add a 0 = a.
Proof.
  intros Ha. unfold jlong_add. rewrite Z.add_0_r. apply to_jlong_id, Ha.
Qed.

Lemma jlong_Tickspan_laws : TickspanLaws jlong_Tickspan.
Proof.
  split; simpl.
  - intros a b. apply jlong_add_sub.
  - intros a. apply jlong_add_0_r.
  - intros a Ha. unfold jlong_add. apply to_jlong_id. exact Ha.
Qed.

(** ** The comparator *)

(** C9.  [frontier_happens_before a b] is the comparison of the difference
    [a - b], taken modulo [2 ^ BitsPerWord], with [max_uintx / 2] where
    [max_uintx = 2 ^ BitsPerWord - 1]; and no value happens before itself. *)
Theorem frontier_happens_before_is_wrapped_difference
    {P : Platform} (a b : Z) :
  frontier_happens_before a b
    = ((a - b) mod 2 ^ Z.pos BitsPerWord >? (2 ^ Z.pos BitsPerWord - 1) / 2)
  /\ frontier_happens_before a a = false.
Proof.
  split.
  - unfold frontier_happens_before, uintx_sub, to_uintx.
    rewrite max_uintx_eq. reflexivity.
  - apply frontier_happens_before_irrefl.
Qed.

(** Unfolding of the monad's operations. *)
Ltac run_m :=
  unfold assert_not_at_safepoint, assert_at_safepoint in *;
  unfold m_bind, m_ret, m_get, m_modify, assert_that in *; simpl in *.

(** ** The epoch updater *)

Section Updater.
Context {P : Platform}.

(** The assertions of [update_epoch_internal] on the Java thread at [i]. *)
Definition may_update (i : nat) (w : World) : bool :=
  negb (at_safepoint w) &&
  from_option (fun t => epoch t <=? global_epoch w) true (java_threads w !! i).

Lemma update_epoch_internal_run i w :
  update_epoch_internal (JavaThreadAt i) w =
    if ASSERT && negb (may_update i w) then None
    else Some (tt, set_java_threads
                     (alter (set_epoch (global_epoch w)) i (java_threads w)) w).
Proof.
  unfold update_epoch_internal, may_update, modify_thread.
  destruct w as [ge gf ps rs ts db ct sp]. run_m.
  destruct ASSERT, sp; simpl; try reflexivity.
  destruct (from_option _ true (ts !! i)); reflexivity.
Qed.

(** The four assertions of the updater, each failing alone in a debug
    build: a call at a safepoint, on a thread that is not a Java thread,
    on a thread whose epoch is above [global_epoch], and
    [update_epoch_self] on another thread than the current one. *)
Lemma update_epoch_asserts :
  let w := {| global_epoch := 5; global_frontier := 5; pending_sync := 0;
              reset_all_epoch_scheduled := false;
              java_threads := [{| epoch := 4; has_operation := false;
                                  local_poll_armed := false; blocked := false |};
                               {| epoch := 10; has_operation := false;
                                  local_poll_armed := false; blocked := false |}];
              deferred_buffer := []; current_thread := JavaThreadAt 0;
              at_safepoint := false |} in
  let at_pause := {| global_epoch := 5; global_frontier := 5; pending_sync := 0;
                     reset_all_epoch_scheduled := false;
                     java_threads := java_threads w;
                     deferred_buffer := []; current_thread := JavaThreadAt 0;
                     at_safepoint := true |} in
  @update_epoch_self LP64_debug (JavaThreadAt 0) at_pause = None /\
  @update_epoch_self_or_other LP64_debug ConcurrentGCThread w = None /\
  @update_epoch_self_or_other LP64_debug (JavaThreadAt 1) w = None /\
  @update_epoch_self LP64_debug (JavaThreadAt 1) w = None /\
  @update_epoch_self LP64_debug (JavaThreadAt 0) w
    = Some (tt, set_java_threads (alter (set_epoch 5) 0%nat (java_threads w)) w) /\
  @update_epoch_self LP64_release (JavaThreadAt 1) w
    = Some (tt, set_java_threads (alter (set_epoch 5) 1%nat (java_threads w)) w).
Proof.
  intros w at_pause. repeat split.
Qed.

End Updater.

(** ** The two comparator generations *)

Section Refinement.
Context {P : Platform}.

Lemma wrap_update_global_frontier_run latest_frontier w :
  WrapAware.update_global_frontier latest_frontier w =
    Some (tt, if frontier_happens_before (global_frontier w) latest_frontier
              then set_global_frontier latest_frontier w else w).
Proof.
  unfold WrapAware.update_global_frontier, Atomic_cmpxchg_global_frontier.
  run_m. destruct (frontier_happens_before _ _); [|reflexivity].
  simpl. rewrite Z.eqb_refl. reflexivity.
Qed.

Lemma native_update_global_frontier_run latest_frontier w :
  NativeCompare.update_global_frontier latest_frontier w =
    Some (tt, if global_frontier w <? latest_frontier
              then set_global_frontier latest_frontier w else w).
Proof.
  unfold NativeCompare.update_global_frontier, Atomic_cmpxchg_global_frontier.
  run_m. destruct (_ <? _); [|reflexivity].
  simpl. rewrite Z.eqb_refl. reflexivity.
Qed.

Lemma wrap_check_frontier_helper_run latest_frontier required_frontier w :
  WrapAware.check_frontier_helper latest_frontier required_frontier w =
    if frontier_happens_before latest_frontier required_frontier
    then Some (false, w)
    else Some (true,
               if frontier_happens_before (global_frontier w) latest_frontier
               then set_global_frontier latest_frontier w else w).
Proof.
  unfold WrapAware.check_frontier_helper.
  destruct (frontier_happens_before latest_frontier required_frontier); simpl.
  - reflexivity.
  - unfold m_bind. rewrite wrap_update_global_frontier_run. reflexivity.
Qed.

Lemma native_check_frontier_helper_run latest_frontier required_frontier w :
  NativeCompare.check_frontier_helper latest_frontier required_frontier w =
    if latest_frontier <? required_frontier
    then Some (false, w)
    else Some (true,
               if global_frontier w <? latest_frontier
               then set_global_frontier latest_frontier w else w).
Proof.
  unfold NativeCompare.check_frontier_helper.
  rewrite Z.geb_leb, Z.leb_antisym.
  destruct (latest_frontier <? required_frontier); simpl.
  - reflexivity.
  - unfold m_bind. rewrite native_update_global_frontier_run. reflexivity.
Qed.

End Refinement.

(** C7, as amended.  When [latest_frontier] and [required_frontier] are
    within [max_uintx / 2] of one another, and so are the current
    [global_frontier] and [latest_frontier], the wrap-aware
    [check_frontier_helper] and [update_global_frontier] return what the
    native-comparison ones return and leave the same world. *)
Theorem wrap_aware_helpers_refine_native
    {P : Platform} (latest_frontier required_frontier : Z) (w : World) :
  is_uintx latest_frontier -> is_uintx required_frontier ->
  is_uintx (global_frontier w) ->
  Z.abs (latest_frontier - required_frontier) <= max_uintx / 2 ->
  Z.abs (global_frontier w - latest_frontier) <= max_uintx / 2 ->
  WrapAware.check_frontier_helper latest_frontier required_frontier w
    = NativeCompare.check_frontier_helper latest_frontier required_frontier w
  /\ WrapAware.update_global_frontier latest_frontier w
    = NativeCompare.update_global_frontier latest_frontier w.
Proof.
  intros HL HR HG Hd1 Hd2.
  rewrite wrap_check_frontier_helper_run, native_check_frontier_helper_run,
    wrap_update_global_frontier_run, native_update_global_frontier_run.
  rewrite !frontier_happens_before_native by assumption.
  split; reflexivity.
Qed.

Definition quiet_thread (e : Z) : JavaThread :=
  {| epoch := e; has_operation := false; local_poll_armed := false;
     blocked := false |}.

Definition refinement_world (frontier : Z) (ts : list JavaThread) (pending : Z) : World :=
  {| global_epoch := 0; global_frontier := frontier; pending_sync := pending;
     reset_all_epoch_scheduled := false; java_threads := ts;
     deferred_buffer := []; current_thread := ConcurrentGCThread;
     at_safepoint := false |}.

Lemma wrap_aware_helpers_refine_native_witness :
  let w := refinement_world 9 [quiet_thread 11] 1 in
  (@is_uintx LP64_debug 11 /\ @is_uintx LP64_debug 10 /\
   @is_uintx LP64_debug (global_frontier w) /\
   Z.abs (11 - 10) <= @max_uintx LP64_debug / 2 /\
   Z.abs (global_frontier w - 11) <= @max_uintx LP64_debug / 2) /\
  (@WrapAware.check_frontier_helper LP64_debug 11 10 w
     = NativeCompare.check_frontier_helper 11 10 w
   /\ @WrapAware.update_global_frontier LP64_debug 11 w
     = NativeCompare.update_global_frontier 11 w).
Proof.
  split.
  - vm_compute. intuition discriminate.
  - apply (@wrap_aware_helpers_refine_native LP64_debug 11 10
             (refinement_world 9 [quiet_thread 11] 1));
      vm_compute; intuition discriminate.
Defined.

(** C7 as stated fails.  Take [latest_frontier] and [required_frontier]
    equal but half the range above [global_frontier]: both helpers return
    [true], the native one raises [global_frontier], the wrap-aware one
    leaves it. *)
Lemma wrap_aware_helpers_differ_far_from_global_frontier :
  let latest := 2 ^ 63 + 5 in
  let w := refinement_world 0 [] 0 in
  @is_uintx LP64_debug latest /\
  Z.abs (latest - latest) <= @max_uintx LP64_debug / 2 /\
  @WrapAware.check_frontier_helper LP64_debug latest latest w
    <> NativeCompare.check_frontier_helper latest latest w /\
  @WrapAware.update_global_frontier LP64_debug latest w
    <> NativeCompare.update_global_frontier latest w.
Proof.
  vm_compute. intuition discriminate.
Qed.

(** ** The safepoint reset *)

Section Reset.
Context {P : Platform}.

(** The world [reset_all_epoch] leaves when its assertions hold. *)
Definition world_after_reset (w : World) : World :=
  {| global_epoch := 0; global_frontier := 0; pending_sync := pending_sync w;
     reset_all_epoch_scheduled := false;
     java_threads := map NativeCompare.G1ResetEpochClosure_do_thread (java_threads w);
     deferred_buffer := [];
     current_thread := current_thread w; at_safepoint := at_safepoint w |}.

Lemma reset_all_epoch_run w :
  NativeCompare.reset_all_epoch w =
    if ASSERT && negb (at_safepoint w) then None
    else if ASSERT && negb (is_VM_thread (current_thread w)) then None
    else if ASSERT && negb (pending_sync w
                            =? to_uintx (Z.of_nat (length (deferred_buffer w))))
    then None
    else Some (tt, world_after_reset w).
Proof.
  unfold NativeCompare.reset_all_epoch, NativeCompare.reset_epoch_in_deferred_buffer,
    NativeCompare.Threads_java_threads_do.
  run_m.
  destruct (ASSERT && negb (at_safepoint w)); [reflexivity|].
  destruct (ASSERT && negb (is_VM_thread (current_thread w))); [reflexivity|].
  destruct (ASSERT && negb (pending_sync w =? _)); reflexivity.
Qed.

Lemma reset_closure_zeroes ts :
  Forall (fun t => epoch t = 0) (map NativeCompare.G1ResetEpochClosure_do_thread ts).
Proof.
  induction ts as [|t ts IH]; simpl; constructor; [reflexivity | exact IH].
Qed.

End Reset.

(** C8.  Run at a safepoint on the VM thread, [reset_all_epoch] checks
    [pending_sync] against the length [D] of the deferred buffer it drains:
    in a debug build with [pending_sync <> D] the assertion fails; otherwise
    it returns with [global_epoch = 0], [global_frontier = 0], every Java
    thread's epoch [0] and the reset flag cleared. *)
Theorem reset_all_epoch_postcondition {P : Platform} (w : World) :
  at_safepoint w = true ->
  is_VM_thread (current_thread w) = true ->
  let D := to_uintx (Z.of_nat (length (deferred_buffer w))) in
  if ASSERT && negb (pending_sync w =? D)
  then NativeCompare.reset_all_epoch w = None
  else exists w',
      NativeCompare.reset_all_epoch w = Some (tt, w') /\
      global_epoch w' = 0 /\ global_frontier w' = 0 /\
      Forall (fun t => epoch t = 0) (java_threads w') /\
      length (java_threads w') = length (java_threads w) /\
      reset_all_epoch_scheduled w' = false /\
      (ASSERT = true -> pending_sync w' = D).
Proof.
  intros Hsafe Hvm D. rewrite reset_all_epoch_run, Hsafe, Hvm.
  rewrite !andb_false_r. fold D.
  destruct (ASSERT && negb (pending_sync w =? D)) eqn:Hassert; [reflexivity|].
  exists (world_after_reset w). simpl.
  repeat split; auto using reset_closure_zeroes.
  - apply length_map.
  - intros HA. rewrite HA in Hassert. simpl in Hassert.
    apply negb_false_iff, Z.eqb_eq in Hassert. exact Hassert.
Qed.

(** Scenario 4 of the specification: one deferred initiator, a reset
    scheduled past the threshold. *)
Definition reset_world : World :=
  {| global_epoch := 4611686018427387905; global_frontier := 4611686018427387900;
     pending_sync := 1; reset_all_epoch_scheduled := true;
     java_threads := [quiet_thread 4611686018427387905;
                      quiet_thread 4611686018427387900];
     deferred_buffer := [4611686018427387904];
     current_thread := VMThread; at_safepoint := true |}.

Lemma reset_all_epoch_postcondition_witness :
  (at_safepoint reset_world = true /\
   is_VM_thread (current_thread reset_world) = true) /\
  exists w',
    @NativeCompare.reset_all_epoch LP64_debug reset_world = Some (tt, w') /\
    global_epoch w' = 0 /\ global_frontier w' = 0 /\
    Forall (fun t => epoch t = 0) (java_threads w') /\
    length (java_threads w') = length (java_threads reset_world) /\
    reset_all_epoch_scheduled w' = false /\
    (@ASSERT LP64_debug = true -> pending_sync w' = 1).
Proof.
  split.
  - split; reflexivity.
  - apply (@reset_all_epoch_postcondition LP64_debug reset_world); reflexivity.
Defined.

(** ** The statistics *)

(** C10.  [operator+] and [operator-] of [G1EpochSynchronizerStats] act on
    each of the four counters separately; subtracting what was added gives
    the value back, and a freshly constructed value is an identity of
    [operator+], on the right and on the left. *)
Theorem stats_plus_minus_inverse
    {P : Platform} {T : TickspanOps} (L : TickspanLaws T)
    (x y : Stats.G1EpochSynchronizerStats) :
  Stats.valid x ->
  (Stats.fast_sync_time (Stats.plus x y)
     = Tickspan_add (Stats.fast_sync_time x) (Stats.fast_sync_time y) /\
   Stats.deferred_sync_time (Stats.plus x y)
     = Tickspan_add (Stats.deferred_sync_time x) (Stats.deferred_sync_time y) /\
   Stats.fast_syncs (Stats.plus x y)
     = uintx_add (Stats.fast_syncs x) (Stats.fast_syncs y) /\
   Stats.deferred_syncs (Stats.plus x y)
     = uintx_add (Stats.deferred_syncs x) (Stats.deferred_syncs y)) /\
  (Stats.fast_sync_time (Stats.minus x y)
     = Tickspan_sub (Stats.fast_sync_time x) (Stats.fast_sync_time y) /\
   Stats.deferred_sync_time (Stats.minus x y)
     = Tickspan_sub (Stats.deferred_sync_time x) (Stats.deferred_sync_time y) /\
   Stats.fast_syncs (Stats.minus x y)
     = uintx_sub (Stats.fast_syncs x) (Stats.fast_syncs y) /\
   Stats.deferred_syncs (Stats.minus x y)
     = uintx_sub (Stats.deferred_syncs x) (Stats.deferred_syncs y)) /\
  Stats.minus (Stats.plus x y) y = x /\
  Stats.plus x Stats.new_G1EpochSynchronizerStats = x /\
  Stats.plus Stats.new_G1EpochSynchronizerStats x = x.
Proof.
  intros (Hf & Hd & Hfs & Hds).
  split; [repeat split|]. split; [repeat split|].
  destruct x as [xf xd xfs xds], y as [yf yd yfs yds]; simpl in *.
  unfold Stats.minus, Stats.plus, Stats.sub_assign, Stats.add_assign; simpl.
  split; [|split]; f_equal;
    auto using uintx_add_sub, uintx_add_0_r, uintx_add_0_l,
      Tickspan_add_sub, Tickspan_add_new, Tickspan_new_add.
Qed.

Definition stats_sample_x : @Stats.G1EpochSynchronizerStats jlong_Tickspan :=
  @Stats.Build_G1EpochSynchronizerStats jlong_Tickspan
    9223372036854775807 (-5) 18446744073709551615 0.

Definition stats_sample_y : @Stats.G1EpochSynchronizerStats jlong_Tickspan :=
  @Stats.Build_G1EpochSynchronizerStats jlong_Tickspan 1 7 2 3.

Lemma stats_plus_minus_inverse_witness :
  @Stats.valid LP64_debug jlong_Tickspan stats_sample_x /\
  @Stats.minus LP64_debug jlong_Tickspan
     (@Stats.plus LP64_debug jlong_Tickspan stats_sample_x stats_sample_y)
     stats_sample_y = stats_sample_x /\
  @Stats.plus LP64_debug jlong_Tickspan stats_sample_x
     Stats.new_G1EpochSynchronizerStats = stats_sample_x /\
  @Stats.plus LP64_debug jlong_Tickspan
     Stats.new_G1EpochSynchronizerStats stats_sample_x = stats_sample_x.
Proof.
  assert (Hv : @Stats.valid LP64_debug jlong_Tickspan stats_sample_x)
    by (vm_compute; intuition discriminate).
  split; [exact Hv|].
  apply (@stats_plus_minus_inverse LP64_debug jlong_Tickspan
           jlong_Tickspan_laws stats_sample_x stats_sample_y Hv).
Defined.

(** ** The thread scan *)

Section Scan.
Context {P : Platform}.

(** One step of the running minimum of the wrap-aware closures. *)
Definition wrap_min_step (m e : Z) : Z :=
  if frontier_happens_before e m then e else m.

(** [m] is a wrap-aware minimum of [epochs]: one of them, with none of them
    happening before it. *)
Definition is_wrap_aware_minimum (m : Z) (epochs : list Z) : Prop :=
  In m epochs /\ Forall (fun e => frontier_happens_before e m = false) epochs.

Lemma async_scan_fields cl i ts :
  AsyncHandshake.min_epoch (AsyncHandshake.java_threads_do cl i ts)
    = fold_left wrap_min_step (map epoch ts) (AsyncHandshake.min_epoch cl)
  /\ AsyncHandshake.collect_threads (AsyncHandshake.java_threads_do cl i ts)
    = AsyncHandshake.collect_threads cl
  /\ AsyncHandshake.closure_required_frontier (AsyncHandshake.java_threads_do cl i ts)
    = AsyncHandshake.closure_required_frontier cl.
Proof.
  revert cl i. induction ts as [|t ts IH]; intros cl i; simpl.
  - auto.
  - destruct (IH (AsyncHandshake.do_thread cl i t) (S i)) as (Hm & Hc & Hr).
    rewrite Hm, Hc, Hr. auto.
Qed.

Lemma frontier_happens_before_max_uintx e :
  is_uintx e -> e + 1 < uintx_half ->
  frontier_happens_before e max_uintx = false.
Proof.
  intros He Hsmall. apply frontier_happens_before_false.
  pose proof is_uintx_max_uintx as Hmax.
  rewrite uintx_sub_cases by assumption.
  rewrite max_uintx_eq in *. pose proof uintx_modulus_half.
  unfold is_uintx in *.
  destruct (Z.leb_spec (uintx_modulus - 1) e); lia.
Qed.

(** Started from [max_uintx], the running minimum does not move while the
    epochs it meets are in the lower half of the range: [max_uintx] is the
    value just before [0] in the wrap-aware order, not a top element. *)
Lemma wrap_min_from_max_uintx_stays epochs :
  Forall (fun e => is_uintx e /\ e + 1 < uintx_half) epochs ->
  fold_left wrap_min_step epochs max_uintx = max_uintx.
Proof.
  induction 1 as [|e es [He Hs] _ IH]; simpl.
  - reflexivity.
  - unfold wrap_min_step at 2.
    rewrite frontier_happens_before_max_uintx by assumption. exact IH.
Qed.

Lemma async_scan_min_epoch_stays required_frontier collect ts :
  Forall (fun t => is_uintx (epoch t) /\ epoch t + 1 < uintx_half) ts ->
  AsyncHandshake.min_epoch
    (AsyncHandshake.java_threads_do
       (AsyncHandshake.new_closure required_frontier collect) 0 ts) = max_uintx.
Proof.
  intros Hts. destruct (async_scan_fields
    (AsyncHandshake.new_closure required_frontier collect) 0 ts) as (-> & _).
  simpl. apply wrap_min_from_max_uintx_stays.
  induction Hts; simpl; constructor; assumption.
Qed.

(** The native-comparison closure, by contrast, ends on the least epoch. *)
Lemma native_scan_fields cl i ts :
  NativeCompare.min_epoch (NativeCompare.java_threads_do cl i ts)
    = fold_left MIN2 (map epoch ts) (NativeCompare.min_epoch cl).
Proof.
  revert cl i. induction ts as [|t ts IH]; intros cl i; simpl.
  - reflexivity.
  - rewrite IH. reflexivity.
Qed.

Lemma fold_MIN2_le es : forall m,
  fold_left MIN2 es m <= m /\ Forall (fun e => fold_left MIN2 es m <= e) es /\
  (fold_left MIN2 es m = m \/ In (fold_left MIN2 es m) es).
Proof.
  induction es as [|e es IH]; intros m; simpl.
  - split; [lia|]. split; [constructor | left; reflexivity].
  - destruct (IH (MIN2 m e)) as (Hle & Hall & Hin).
    assert (Hm : MIN2 m e <= m /\ MIN2 m e <= e /\ (MIN2 m e = m \/ MIN2 m e = e)).
    { unfold MIN2. destruct (Z.ltb_spec m e); lia. }
    split; [lia|]. split.
    + constructor; [lia | exact Hall].
    + destruct Hin as [Heq | Hin]; [|right; right; exact Hin].
      rewrite Heq. destruct Hm as (_ & _ & [Hm | Hm]); [left | right; left]; auto.
Qed.

Lemma native_scan_min_epoch_is_minimum required_frontier collect t ts :
  Forall (fun t => is_uintx (epoch t)) (t :: ts) ->
  let m := NativeCompare.min_epoch
             (NativeCompare.java_threads_do
                (NativeCompare.new_closure required_frontier collect) 0 (t :: ts)) in
  In m (map epoch (t :: ts)) /\ Forall (fun e => m <= e) (map epoch (t :: ts)).
Proof.
  intros Hall m. subst m. rewrite native_scan_fields.
  cbn [NativeCompare.min_epoch NativeCompare.new_closure].
  destruct (fold_MIN2_le (map epoch (t :: ts)) max_uintx) as (Hle & Hfa & Hin).
  split; [|exact Hfa].
  destruct Hin as [Heq | Hin]; [|exact Hin].
  rewrite Heq in *. apply Forall_inv in Hfa. apply Forall_inv in Hall.
  simpl in Hfa. rewrite max_uintx_eq in *. unfold is_uintx in Hall.
  left. simpl. lia.
Qed.

End Scan.

(** The world of scenario 1 of the specification. *)
Definition scenario_world (epoch frontier pending : Z) (ts : list JavaThread) : World :=
  {| global_epoch := epoch; global_frontier := frontier; pending_sync := pending;
     reset_all_epoch_scheduled := false; java_threads := ts;
     deferred_buffer := []; current_thread := ConcurrentGCThread;
     at_safepoint := false |}.

(** The same world with a mutator as the initiator: the Java thread at
    [i] of the list. *)
Definition java_caller_world (i : nat) (epoch frontier pending : Z)
    (ts : list JavaThread) : World :=
  {| global_epoch := epoch; global_frontier := frontier; pending_sync := pending;
     reset_all_epoch_scheduled := false; java_threads := ts;
     deferred_buffer := []; current_thread := JavaThreadAt i;
     at_safepoint := false |}.

(** C6, at a failing input.  On a 64-bit platform, one Java thread with
    epoch [5] and a required frontier of [6]: the wrap-aware minimum of the
    observed epochs is [5], but each scan (observing, collecting stragglers,
    arming polls) ends with [min_epoch] still at its initial [max_uintx]. *)
Theorem scan_min_epoch_stays_at_max_uintx :
  let ts := [quiet_thread 5] in
  let w := scenario_world 6 0 1 ts in
  @is_wrap_aware_minimum LP64_debug 5 (map epoch ts) /\
  ~ @is_wrap_aware_minimum LP64_debug 18446744073709551615 (map epoch ts) /\
  @AsyncHandshake.min_epoch
     (@AsyncHandshake.java_threads_do LP64_debug
        (@AsyncHandshake.new_closure LP64_debug 6 false) 0 ts)
    = 18446744073709551615 /\
  @AsyncHandshake.min_epoch
     (@AsyncHandshake.java_threads_do LP64_debug
        (@AsyncHandshake.new_closure LP64_debug 6 true) 0 ts)
    = 18446744073709551615 /\
  option_map (fun r => ArmPoll.min_epoch (fst r))
     (@ArmPoll.java_threads_do LP64_debug
        (@ArmPoll.new_closure LP64_debug 6 false false) [0%nat] w)
    = Some 18446744073709551615 /\
  option_map (fun r => ArmPoll.min_epoch (fst r))
     (@ArmPoll.java_threads_do LP64_debug
        (@ArmPoll.new_closure LP64_debug 6 true false) [0%nat] w)
    = Some 18446744073709551615.
Proof.
  intros ts w. split; [|split].
  - split; [left; reflexivity | repeat constructor].
  - intros [Hin _]. simpl in Hin. destruct Hin as [Hin | []]. discriminate Hin.
  - repeat split; vm_compute; reflexivity.
Qed.

(** ** [check_synchronized] of g1EpochSynchronizer.cpp *)

Section CheckSynchronized.
Context {P : Platform}.

(** The world after [update_epoch_self] by the current thread. *)
Definition self_updated (w : World) : World :=
  match current_thread w with
  | JavaThreadAt i =>
      set_java_threads (alter (set_epoch (global_epoch w)) i (java_threads w)) w
  | _ => w
  end.

(** The world after [dec_pending_sync]. *)
Definition pending_sync_decremented (w : World) : World :=
  if ASSERT then set_pending_sync (uintx_sub (pending_sync w) 1) w else w.

(** The value of [cl.min_epoch()] after the observing scan. *)
Definition scanned_min_epoch (required_frontier : Z) (w : World) : Z :=
  AsyncHandshake.min_epoch
    (AsyncHandshake.java_threads_do
       (AsyncHandshake.new_closure required_frontier false) 0 (java_threads w)).

(** [assert(local_epoch <= global_epoch, "Epoch overflow")] of the updater,
    for the current thread. *)
Definition own_epoch_in_order (w : World) : bool :=
  match current_thread w with
  | JavaThreadAt i =>
      from_option (fun t => epoch t <=? global_epoch w) true (java_threads w !! i)
  | _ => true
  end.

(** The assertions of [check_synchronized_inner] and of the
    [update_epoch_self] it calls hold in [w]. *)
Definition may_check (w : World) : bool :=
  negb (at_safepoint w) &&
  (is_Java_thread (current_thread w) || is_ConcurrentGC_thread (current_thread w)) &&
  own_epoch_in_order w.

Lemma dec_pending_sync_run w :
  WrapAware.dec_pending_sync w = Some (tt, pending_sync_decremented w).
Proof.
  unfold WrapAware.dec_pending_sync, pending_sync_decremented.
  destruct ASSERT; reflexivity.
Qed.

Lemma check_synchronized_inner_run this w :
  AsyncHandshake.check_synchronized_inner this w =
    if ASSERT && negb (may_check w) then None
    else
      let w1 := self_updated w in
      if frontier_happens_before (global_frontier w1) (required_frontier this)
      then WrapAware.check_frontier_helper
             (scanned_min_epoch (required_frontier this) w1)
             (required_frontier this) w1
      else Some (true, w1).
Proof.
  unfold AsyncHandshake.check_synchronized_inner, may_check, self_updated,
    own_epoch_in_order, scanned_min_epoch, update_epoch_self,
    update_epoch_internal, modify_thread.
  destruct w as [ge gf ps rs ts db ct sp]. run_m.
  destruct ASSERT, sp; simpl; try reflexivity;
    destruct ct as [i| |]; simpl; rewrite ?Nat.eqb_refl; simpl;
    try reflexivity;
    try (destruct (from_option _ true (ts !! i)); simpl; try reflexivity);
    match goal with
    | |- context [frontier_happens_before ?a ?b] =>
        destruct (frontier_happens_before a b); reflexivity
    end.
Qed.

Lemma check_synchronized_run this w :
  AsyncHandshake.check_synchronized this w =
    match AsyncHandshake.check_synchronized_inner this w with
    | Some (true, w1) => Some (true, pending_sync_decremented w1)
    | Some (false, w1) => Some (false, w1)
    | None => None
    end.
Proof.
  unfold AsyncHandshake.check_synchronized, m_bind.
  destruct (AsyncHandshake.check_synchronized_inner this w) as [[[|] w1]|];
    [rewrite dec_pending_sync_run| |]; reflexivity.
Qed.

(** With [m] read as what the scanning closure returns, the result of
    [check_synchronized_inner] is as section 4.D states it. *)
Lemma check_synchronized_inner_result this w r w' :
  AsyncHandshake.check_synchronized_inner this w = Some (r, w') ->
  let w1 := self_updated w in
  let m := scanned_min_epoch (required_frontier this) w1 in
  (r = true <->
     frontier_happens_before (global_frontier w1) (required_frontier this) = false
     \/ frontier_happens_before m (required_frontier this) = false)
  /\ w' = (if frontier_happens_before (global_frontier w1) (required_frontier this)
              && negb (frontier_happens_before m (required_frontier this))
              && frontier_happens_before (global_frontier w1) m
           then set_global_frontier m w1 else w1).
Proof.
  rewrite check_synchronized_inner_run. cbv zeta.
  destruct (ASSERT && negb (may_check w)); [discriminate|].
  rewrite wrap_check_frontier_helper_run.
  destruct (frontier_happens_before (global_frontier (self_updated w))
              (required_frontier this)); simpl.
  - destruct (frontier_happens_before (scanned_min_epoch _ _) (required_frontier this));
      simpl; intros [= <- <-]; split; try reflexivity; intuition congruence.
  - intros [= <- <-]. split; [|reflexivity]. intuition congruence.
Qed.

Lemma alter_set_epoch_twice e i (ts : list JavaThread) :
  alter (set_epoch e) i (alter (set_epoch e) i ts) = alter (set_epoch e) i ts.
Proof.
  rewrite list_alter_alter_eq. apply list_alter_ext; [|reflexivity].
  intros [] _. reflexivity.
Qed.

End CheckSynchronized.

Section CheckSynchronizedTwice.
Context {P : Platform}.

Lemma pending_sync_decremented_fields w :
  global_epoch (pending_sync_decremented w) = global_epoch w /\
  global_frontier (pending_sync_decremented w) = global_frontier w /\
  java_threads (pending_sync_decremented w) = java_threads w /\
  current_thread (pending_sync_decremented w) = current_thread w /\
  at_safepoint (pending_sync_decremented w) = at_safepoint w /\
  pending_sync (pending_sync_decremented w)
    = (if ASSERT then uintx_sub (pending_sync w) 1 else pending_sync w).
Proof.
  unfold pending_sync_decremented. destruct ASSERT; repeat split; reflexivity.
Qed.

Lemma self_updated_fields w :
  global_epoch (self_updated w) = global_epoch w /\
  global_frontier (self_updated w) = global_frontier w /\
  pending_sync (self_updated w) = pending_sync w /\
  current_thread (self_updated w) = current_thread w /\
  at_safepoint (self_updated w) = at_safepoint w.
Proof.
  unfold self_updated.
  destruct (current_thread w) eqn:Hct; repeat split; simpl; auto.
Qed.

(** A world reached by a successful check is a fixed point of the current
    thread's own epoch update. *)
Lemma self_updated_after_check w (raise : option Z) :
  let w1 := pending_sync_decremented
              (match raise with
               | Some m => set_global_frontier m (self_updated w)
               | None => self_updated w
               end) in
  self_updated w1 = w1 /\
  (ASSERT && negb (may_check w) = false -> ASSERT && negb (may_check w1) = false) /\
  java_threads w1 = java_threads (self_updated w) /\
  global_frontier w1 = from_option id (global_frontier w) raise.
Proof.
  unfold self_updated, pending_sync_decremented, may_check, own_epoch_in_order.
  destruct w as [ge gf ps rs ts db ct sp]; simpl.
  destruct ASSERT, raise as [m|], ct as [i| |]; simpl;
    rewrite ?alter_set_epoch_twice, ?list_lookup_alter_eq;
    (split; [reflexivity|]); (split; [|split; reflexivity]);
    try (intros H; exact H);
    destruct (ts !! i); simpl; rewrite ?Z.leb_refl;
    destruct sp; simpl; intros H; try reflexivity; discriminate H.
Qed.

Lemma check_synchronized_inner_again this w w1 :
  AsyncHandshake.check_synchronized_inner this w = Some (true, w1) ->
  AsyncHandshake.check_synchronized_inner this (pending_sync_decremented w1)
    = Some (true, pending_sync_decremented w1).
Proof.
  rewrite !check_synchronized_inner_run. cbv zeta.
  destruct (ASSERT && negb (may_check w)) eqn:Hassert; [discriminate|].
  rewrite !wrap_check_frontier_helper_run.
  set (R := required_frontier this).
  destruct (self_updated_fields w) as (_ & Hgf & _).
  destruct (frontier_happens_before (global_frontier (self_updated w)) R) eqn:HG.
  - destruct (frontier_happens_before (scanned_min_epoch R (self_updated w)) R)
      eqn:Hm; [discriminate|].
    destruct (frontier_happens_before (global_frontier (self_updated w))
                (scanned_min_epoch R (self_updated w))) eqn:Hraise;
      intros [= <-].
    + destruct (self_updated_after_check w
                  (Some (scanned_min_epoch R (self_updated w))))
        as (Hfix & Hmay & _ & Hfr).
      cbv zeta in *. rewrite (Hmay Hassert), Hfix, Hfr. simpl.
      rewrite Hm. reflexivity.
    + destruct (self_updated_after_check w None) as (Hfix & Hmay & Hts & Hfr).
      cbv zeta in *. rewrite (Hmay Hassert), Hfix, Hfr. simpl.
      unfold scanned_min_epoch in *. rewrite Hts, <- Hgf, HG, Hm, Hraise.
      reflexivity.
  - intros [= <-].
    destruct (self_updated_after_check w None) as (Hfix & Hmay & Hts & Hfr).
    cbv zeta in *. rewrite (Hmay Hassert), Hfix, Hfr. simpl.
    rewrite <- Hgf, HG. reflexivity.
Qed.

End CheckSynchronizedTwice.

(** C3, as amended.  Once [check_synchronized] has returned [true], a second
    call on the world it left returns [true] again and changes nothing but
    [pending_sync], which a debug build decrements once more. *)
Theorem check_synchronized_again_decrements
    {P : Platform} (this : G1EpochSynchronizer) (w w1 : World) :
  AsyncHandshake.check_synchronized this w = Some (true, w1) ->
  exists w2,
    AsyncHandshake.check_synchronized this w1 = Some (true, w2) /\
    global_epoch w2 = global_epoch w1 /\
    global_frontier w2 = global_frontier w1 /\
    java_threads w2 = java_threads w1 /\
    reset_all_epoch_scheduled w2 = reset_all_epoch_scheduled w1 /\
    pending_sync w2
      = (if ASSERT then uintx_sub (pending_sync w1) 1 else pending_sync w1).
Proof.
  rewrite check_synchronized_run.
  destruct (AsyncHandshake.check_synchronized_inner this w)
    as [[[|] w1']|] eqn:Hinner; intros [= <-].
  apply check_synchronized_inner_again in Hinner.
  exists (pending_sync_decremented (pending_sync_decremented w1')).
  rewrite check_synchronized_run, Hinner.
  split; [reflexivity|].
  unfold pending_sync_decremented. destruct ASSERT; repeat split; reflexivity.
Qed.

(** A frontier of [7] already known when an initiator asks for [6]. *)
Definition memoized_world : World :=
  scenario_world 7 7 2 [quiet_thread 7; quiet_thread 7].

Lemma check_synchronized_again_decrements_witness :
  let this := {| required_frontier := 6 |} in
  let w1 := scenario_world 7 7 1 [quiet_thread 7; quiet_thread 7] in
  @AsyncHandshake.check_synchronized LP64_debug this memoized_world
    = Some (true, w1) /\
  exists w2,
    @AsyncHandshake.check_synchronized LP64_debug this w1 = Some (true, w2) /\
    global_epoch w2 = global_epoch w1 /\
    global_frontier w2 = global_frontier w1 /\
    java_threads w2 = java_threads w1 /\
    reset_all_epoch_scheduled w2 = reset_all_epoch_scheduled w1 /\
    pending_sync w2 = @uintx_sub LP64_debug (pending_sync w1) 1.
Proof.
  intros this w1.
  assert (H : @AsyncHandshake.check_synchronized LP64_debug this memoized_world
              = Some (true, w1)) by (vm_compute; reflexivity).
  split; [exact H|].
  exact (@check_synchronized_again_decrements LP64_debug this memoized_world w1 H).
Defined.

(** C3 as stated fails: one initiator, two live synchronizations counted
    in [pending_sync]; its two successful calls bring the count to [0]. *)
Lemma check_synchronized_decrements_twice :
  let this := {| required_frontier := 6 |} in
  exists w1 w2,
    @AsyncHandshake.check_synchronized LP64_debug this memoized_world
      = Some (true, w1) /\
    @AsyncHandshake.check_synchronized LP64_debug this w1 = Some (true, w2) /\
    pending_sync memoized_world = 2 /\
    pending_sync w1 = 1 /\
    pending_sync w2 = 0 /\
    w2 <> w1.
Proof.
  eexists _, _. repeat split; try (vm_compute; reflexivity).
  vm_compute. discriminate.
Qed.

(** C4, as amended.  An initiator constructed with [start_sync = false] has
    [required_frontier = 0] and its construction changes nothing.  Its first
    [check_synchronized], called with the assertions met (outside a
    safepoint; by a refinement thread, or by a Java thread whose own epoch
    is not above [global_epoch]) while [global_frontier] is at most
    [max_uintx / 2], returns [true] on the frontier alone, leaving
    [global_epoch] and [global_frontier] as they were and no epoch changed
    but the caller's own; in a debug build the call decrements
    [pending_sync], in a release build it does not. *)
Theorem noop_initiator_check_synchronized {P : Platform} (w : World) :
  may_check w = true ->
  is_uintx (global_frontier w) ->
  global_frontier w <= max_uintx / 2 ->
  WrapAware.new_G1EpochSynchronizer false w
    = Some ({| required_frontier := 0 |}, w) /\
  exists w',
    AsyncHandshake.check_synchronized {| required_frontier := 0 |} w
      = Some (true, w') /\
    global_epoch w' = global_epoch w /\
    global_frontier w' = global_frontier w /\
    java_threads w' = java_threads (self_updated w) /\
    pending_sync w'
      = (if ASSERT then uintx_sub (pending_sync w) 1 else pending_sync w).
Proof.
  intros Hmay HG Hlow. split; [reflexivity|].
  assert (Hnot : frontier_happens_before (global_frontier (self_updated w)) 0 = false).
  { destruct (self_updated_fields w) as (_ & -> & _).
    apply frontier_happens_before_false.
    unfold uintx_sub. rewrite Z.sub_0_r, to_uintx_id by exact HG.
    rewrite max_uintx_half in Hlow. lia. }
  exists (pending_sync_decremented (self_updated w)).
  rewrite check_synchronized_run, check_synchronized_inner_run, Hmay.
  rewrite andb_false_r. cbv zeta. simpl required_frontier. rewrite Hnot.
  split; [reflexivity|].
  destruct (pending_sync_decremented_fields (self_updated w))
    as (-> & -> & -> & _ & _ & ->).
  destruct (self_updated_fields w) as (-> & -> & -> & _).
  repeat split; reflexivity.
Qed.

Lemma noop_initiator_check_synchronized_witness :
  let w := java_caller_world 1 3 2 1 [quiet_thread 3; quiet_thread 2] in
  (@may_check w = true /\ @is_uintx LP64_debug (global_frontier w) /\
   global_frontier w <= @max_uintx LP64_debug / 2) /\
  @WrapAware.new_G1EpochSynchronizer LP64_debug false w
    = Some ({| required_frontier := 0 |}, w) /\
  exists w',
    @AsyncHandshake.check_synchronized LP64_debug {| required_frontier := 0 |} w
      = Some (true, w') /\
    global_epoch w' = global_epoch w /\
    global_frontier w' = global_frontier w /\
    java_threads w' = java_threads (self_updated w) /\
    pending_sync w' = @uintx_sub LP64_debug (pending_sync w) 1.
Proof.
  intros w. split.
  - vm_compute. intuition discriminate.
  - apply (@noop_initiator_check_synchronized LP64_debug w);
      vm_compute; intuition discriminate.
Defined.

(** C4 as stated fails.  With one live synchronization counted, the call on
    a freshly made no-op initiator returns [true] and brings [pending_sync]
    from [1] to [0]; and with [global_frontier] in the upper half of the
    range the call does not return [true] at all. *)
Lemma noop_initiator_check_changes_pending_sync :
  let w := scenario_world 0 0 1 [quiet_thread 0] in
  let far := scenario_world (2 ^ 63) (2 ^ 63) 0 [quiet_thread (2 ^ 63)] in
  (exists this w',
      @WrapAware.new_G1EpochSynchronizer LP64_debug false w = Some (this, w) /\
      @AsyncHandshake.check_synchronized LP64_debug this w = Some (true, w') /\
      pending_sync w = 1 /\ pending_sync w' = 0) /\
  (exists this,
      @WrapAware.new_G1EpochSynchronizer LP64_debug false far = Some (this, far) /\
      @AsyncHandshake.check_synchronized LP64_debug this far = Some (false, far)).
Proof.
  split.
  - exists {| required_frontier := 0 |}, (scenario_world 0 0 0 [quiet_thread 0]).
    split; [vm_compute; reflexivity|].
    split; [vm_compute; reflexivity|].
    split; reflexivity.
  - exists {| required_frontier := 0 |}.
    split; vm_compute; reflexivity.
Qed.

(** C2, at a failing input: scenario 1 of the specification on a 64-bit
    platform.  The initiator obtains the frontier [6]; the three mutators
    move to epoch [6], whose minimum [6] does not happen before [6]; yet
    [check_synchronized] returns [false], the scan having returned
    [max_uintx] for the minimum. *)
Theorem check_synchronized_fails_on_synchronized_threads :
  let before := [quiet_thread 5; quiet_thread 5; quiet_thread 5] in
  let after := [quiet_thread 6; quiet_thread 6; quiet_thread 6] in
  let this := {| required_frontier := 6 |} in
  @WrapAware.new_G1EpochSynchronizer LP64_debug true (scenario_world 5 5 0 before)
    = Some (this, scenario_world 6 5 1 before) /\
  @is_wrap_aware_minimum LP64_debug 6 (map epoch after) /\
  @frontier_happens_before LP64_debug 6 (required_frontier this) = false /\
  @scanned_min_epoch LP64_debug 6 (scenario_world 6 5 1 after)
    = 18446744073709551615 /\
  @AsyncHandshake.check_synchronized LP64_debug this (scenario_world 6 5 1 after)
    = Some (false, scenario_world 6 5 1 after).
Proof.
  intros before after this. split; [vm_compute; reflexivity|]. split.
  - split; [left; reflexivity|]. repeat constructor; vm_compute; reflexivity.
  - split; [vm_compute; reflexivity|].
    split; vm_compute; reflexivity.
Qed.

(** ** [synchronize] *)

(** The two generations of [synchronize]: g1EpochSynchronizer.cpp posts
    asynchronous handshakes, the second g1EpochSynchronizer.hpp arms polls. *)
Inductive Generation : Set := ByAsyncHandshake | ByArmPoll.

Section Synchronize.
Context {P : Platform}.

Definition check_synchronized_of (g : Generation) (this : G1EpochSynchronizer)
  : M bool :=
  match g with
  | ByAsyncHandshake => AsyncHandshake.check_synchronized this
  | ByArmPoll => ArmPoll.check_synchronized this false
  end.

(** The escalation step, which returns the number of threads acted upon. *)
Definition escalate_of (g : Generation) (this : G1EpochSynchronizer) : M Z :=
  match g with
  | ByAsyncHandshake => AsyncHandshake.async_handshake this
  | ByArmPoll => ArmPoll.arm_local_polls this
  end.

Definition synchronize_of (g : Generation) (this : G1EpochSynchronizer)
    (start_timestamp : Z) (ticks : list Tick) : M (option bool) :=
  match g with
  | ByAsyncHandshake => AsyncHandshake.synchronize this start_timestamp ticks
  | ByArmPoll => ArmPoll.synchronize this false start_timestamp ticks
  end.

(** The test that leaves the spin loop with [false]. *)
Definition gives_up (g : Generation) (start_timestamp : Z) (t : Tick) : bool :=
  match g with
  | ByAsyncHandshake =>
      jlong_sub (elapsed_counter t) start_timestamp >? _SYNCHRONIZE_WAIT_NS
  | ByArmPoll =>
      should_yield t ||
      (jlong_sub (elapsed_counter t) start_timestamp >? _SYNCHRONIZE_WAIT_NS)
  end.

(** The first tick on which the loop gives up. *)
Definition gives_up_at (g : Generation) (start_timestamp : Z)
    (ticks : list Tick) (t : Tick) : Prop :=
  exists pre post,
    ticks = pre ++ t :: post /\
    Forall (fun t' => gives_up g start_timestamp t' = false) pre /\
    gives_up g start_timestamp t = true.

Definition spin_of (g : Generation) (this : G1EpochSynchronizer)
    (start_timestamp : Z) (ticks : list Tick) : M (option bool) :=
  match g with
  | ByAsyncHandshake => AsyncHandshake.spin this start_timestamp ticks
  | ByArmPoll => ArmPoll.spin this false start_timestamp ticks
  end.







(** With a tick on which the loop gives up among those supplied, the loop
    does not run out of ticks. *)
Lemma async_spin_ends this start ticks t : forall w w',
  gives_up_at ByAsyncHandshake start ticks t ->
  AsyncHandshake.spin this start ticks w <> Some (None, w').
Proof.
  intros w w' (pre & post & -> & Hpre & Ht). revert w.
  induction Hpre as [|t0 pre H0 _ IH]; intros w; simpl in *; unfold m_bind;
    destruct (AsyncHandshake.check_synchronized this w) as [[[|] w1]|];
    try discriminate.
  - rewrite Ht. discriminate.
  - rewrite H0. unfold m_modify. apply IH.
Qed.

Lemma arm_poll_spin_ends this report start ticks t : forall w w',
  gives_up_at ByArmPoll start ticks t ->
  ArmPoll.spin this report start ticks w <> Some (None, w').
Proof.
  intros w w' (pre & post & -> & Hpre & Ht). revert w.
  induction Hpre as [|t0 pre H0 _ IH]; intros w; simpl in *; unfold m_bind;
    destruct (ArmPoll.check_synchronized this report w) as [[[|] w1]|];
    try discriminate.
  - rewrite Ht. discriminate.
  - rewrite H0. unfold m_modify. apply IH.
Qed.

Lemma synchronize_of_run g this start ticks w :
  synchronize_of g this start ticks w =
    match check_synchronized_of g this w with
    | Some (true, w1) => Some (Some true, w1)
    | Some (false, w1) =>
        match escalate_of g this w1 with
        | Some (n, w2) =>
            if n =? 0 then Some (Some true, pending_sync_decremented w2)
            else spin_of g this start ticks w2
        | None => None
        end
    | None => None
    end.
Proof.
  destruct g; simpl;
    unfold AsyncHandshake.synchronize, ArmPoll.synchronize, m_bind.
  - destruct (AsyncHandshake.check_synchronized this w) as [[[|] w1]|];
      try reflexivity.
    destruct (AsyncHandshake.async_handshake this w1) as [[n w2]|];
      try reflexivity.
    destruct (n =? 0); [rewrite dec_pending_sync_run|]; reflexivity.
  - destruct (ArmPoll.check_synchronized this false w) as [[[|] w1]|];
      try reflexivity.
    destruct (ArmPoll.arm_local_polls this w1) as [[n w2]|];
      try reflexivity.
    destruct (n =? 0); [rewrite dec_pending_sync_run|]; reflexivity.
Qed.


End Synchronize.

(** Scenario 3 of the specification: a debug build, the third mutator
    unresponsive at epoch [9], the frontier [11] required. *)
Definition idle_tick (now : Z) : Tick :=
  {| elapsed_counter := now; should_yield := false; mutators := fun ts => ts |}.

Definition straggler_world (third : JavaThread) : World :=
  scenario_world 11 10 1 [quiet_thread 11; quiet_thread 11; third].




(** The assertion [armed == 0] of [arm_local_polls] can fail.  Near the top
    of the range, a parked straggler is armed and, being parked, brought up
    to date within the same scan, so that the minimum found reaches the
    frontier: a debug build aborts, while a release build returns zero
    from the escalation and [synchronize] completes. *)
Lemma arm_poll_synchronize_asserts_after_arming :
  let e := 2 ^ 63 + 2 in
  let this := {| required_frontier := e |} in
  let parked := {| epoch := e - 1; has_operation := false;
                   local_poll_armed := false; blocked := true |} in
  let w := scenario_world e (e - 1) 1 [quiet_thread e; parked] in
  @ArmPoll.arm_local_polls LP64_debug this w = None /\
  @synchronize_of LP64_debug ByArmPoll this 100 [idle_tick 101] w = None /\
  @synchronize_of LP64_release ByArmPoll this 100 [idle_tick 101] w
    = Some (Some true,
            scenario_world e e 1
              [quiet_thread e; set_epoch e (set_local_poll_armed true parked)]).
Proof.
  intros e this parked w. split; [|split]; vm_compute; reflexivity.
Qed.

(** * Further properties of the code *)

(** ** The wrap-aware order *)

Section ComparatorFacts.
Context {P : Platform}.

Lemma uintx_sub_wrapped a b :
  uintx_sub (to_uintx a) (to_uintx b) = uintx_sub a b.
Proof.
  unfold uintx_sub, to_uintx. symmetry. apply Zminus_mod.
Qed.

Lemma uintx_sub_shift a b k :
  uintx_sub (uintx_add a k) (uintx_add b k) = uintx_sub a b.
Proof.
  unfold uintx_add. rewrite uintx_sub_wrapped.
  unfold uintx_sub. f_equal. lia.
Qed.

Lemma uintx_sub_succ a : uintx_sub a (uintx_add a 1) = max_uintx.
Proof.
  unfold uintx_sub, uintx_add, max_uintx, to_uintx.
  rewrite Zminus_mod_idemp_r. f_equal. lia.
Qed.

Lemma frontier_happens_before_succ a :
  frontier_happens_before a (uintx_add a 1) = true.
Proof.
  apply frontier_happens_before_true. rewrite uintx_sub_succ, max_uintx_eq.
  pose proof uintx_modulus_half. pose proof uintx_half_pos. lia.
Qed.

End ComparatorFacts.

(** X1.  The order does not depend on where the counter stands: adding the
    same amount to both values, with wrap-around, does not change which one
    happens before the other; nor does reducing them to [uintx]. *)
Theorem frontier_happens_before_shift {P : Platform} (a b k : Z) :
  frontier_happens_before (uintx_add a k) (uintx_add b k)
    = frontier_happens_before a b
  /\ frontier_happens_before (to_uintx a) (to_uintx b)
    = frontier_happens_before a b.
Proof.
  unfold frontier_happens_before.
  rewrite uintx_sub_shift, uintx_sub_wrapped. split; reflexivity.
Qed.

(** X2.  Of two different [uintx] values one happens before the other; both
    do exactly when the values are [2 ^ (BitsPerWord - 1)] apart, the one
    distance at which the order is not antisymmetric. *)
Theorem frontier_happens_before_connex {P : Platform} (a b : Z) :
  is_uintx a -> is_uintx b -> a <> b ->
  (frontier_happens_before a b = true \/ frontier_happens_before b a = true) /\
  (frontier_happens_before a b = true /\ frontier_happens_before b a = true
   <-> uintx_sub a b = uintx_half).
Proof.
  intros Ha Hb Hne. rewrite !frontier_happens_before_true.
  rewrite (uintx_sub_cases a b), (uintx_sub_cases b a) by assumption.
  pose proof uintx_modulus_half. unfold is_uintx in *.
  destruct (Z.leb_spec b a), (Z.leb_spec a b); lia.
Qed.

Lemma frontier_happens_before_connex_witness :
  (@is_uintx LP64_debug 3 /\ @is_uintx LP64_debug (2 ^ 63 + 3) /\
   3 <> 2 ^ 63 + 3) /\
  (@frontier_happens_before LP64_debug 3 (2 ^ 63 + 3) = true
   /\ @frontier_happens_before LP64_debug (2 ^ 63 + 3) 3 = true
   <-> @uintx_sub LP64_debug 3 (2 ^ 63 + 3) = @uintx_half LP64_debug).
Proof.
  assert (H : @is_uintx LP64_debug 3 /\ @is_uintx LP64_debug (2 ^ 63 + 3) /\
              3 <> 2 ^ 63 + 3)
    by (vm_compute; intuition discriminate).
  split; [exact H|].
  destruct H as (Ha & Hb & Hne).
  exact (proj2 (@frontier_happens_before_connex LP64_debug 3 (2 ^ 63 + 3)
                  Ha Hb Hne)).
Defined.

(** ** Starting a synchronization and raising the frontier *)

(** X3.  Outside a safepoint [start_synchronizing] returns the global epoch
    plus one, wrapped, and stores it as the new global epoch; the epoch it
    replaces happens before the returned frontier, also when the counter
    wraps from [max_uintx] to [0].  A debug build counts the initiator in
    [pending_sync]; the frontier and the threads are left alone. *)
Theorem start_synchronizing_advances_epoch {P : Platform} (w : World) :
  at_safepoint w = false ->
  exists w',
    WrapAware.start_synchronizing w
      = Some (uintx_add (global_epoch w) 1, w') /\
    global_epoch w' = uintx_add (global_epoch w) 1 /\
    frontier_happens_before (global_epoch w) (global_epoch w') = true /\
    global_frontier w' = global_frontier w /\
    java_threads w' = java_threads w /\
    pending_sync w'
      = (if ASSERT then uintx_add (pending_sync w) 1 else pending_sync w).
Proof.
  intros Hsafe.
  unfold WrapAware.start_synchronizing, Atomic_add_global_epoch. run_m.
  rewrite Hsafe, andb_false_r. simpl.
  destruct ASSERT; simpl; eexists; (split; [reflexivity|]); simpl;
    rewrite frontier_happens_before_succ; repeat split; reflexivity.
Qed.

Lemma start_synchronizing_advances_epoch_witness :
  let w := scenario_world 18446744073709551615 7 0 [quiet_thread 3] in
  at_safepoint w = false /\
  exists w',
    @WrapAware.start_synchronizing LP64_debug w = Some (0, w') /\
    global_epoch w' = 0 /\
    @frontier_happens_before LP64_debug 18446744073709551615 (global_epoch w')
      = true /\
    global_frontier w' = 7 /\
    java_threads w' = [quiet_thread 3] /\
    pending_sync w' = 1.
Proof.
  intros w. split; [reflexivity|].
  exact (@start_synchronizing_advances_epoch LP64_debug w eq_refl).
Defined.

(** *** Another thread between the load and the compare-and-exchange *)

Section Raced.
Context {P : Platform}.

(** The step of another thread on [_global_frontier]: it stores [v], or
    does nothing. *)
Definition other_thread_stores (other : option Z) : M unit :=
  match other with
  | Some v => m_modify (set_global_frontier v)
  | None => m_ret tt
  end.

(** [G1EpochSynchronizer::update_global_frontier] of g1EpochSynchronizer.cpp
    with the step of another thread between its [Atomic::load_acquire] and
    its [Atomic::cmpxchg]. *)
Definition update_global_frontier_raced (other : option Z)
    (latest_frontier : Z) : M unit :=
  global_frontier <- m_get global_frontier ;;
  other_thread_stores other ;;
  if frontier_happens_before global_frontier latest_frontier
  then Atomic_cmpxchg_global_frontier global_frontier latest_frontier ;; m_ret tt
  else m_ret tt.

(** The same for [update_global_frontier] and [check_frontier_helper] of the
    native-comparison generation. *)
Definition native_update_global_frontier_raced (other : option Z)
    (latest_frontier : Z) : M unit :=
  global_frontier <- m_get global_frontier ;;
  other_thread_stores other ;;
  if global_frontier <? latest_frontier
  then Atomic_cmpxchg_global_frontier global_frontier latest_frontier ;; m_ret tt
  else m_ret tt.

Definition native_check_frontier_helper_raced (other : option Z)
    (latest_frontier required_frontier : Z) : M bool :=
  if latest_frontier >=? required_frontier
  then native_update_global_frontier_raced other latest_frontier ;; m_ret true
  else m_ret false.

(** The value of [_global_frontier] after a load that found [found], the
    step of the other thread, and a compare-and-exchange to [latest]
    attempted when [attempt] holds. *)
Definition frontier_after (found : Z) (other : option Z) (attempt : bool)
    (latest : Z) : Z :=
  let current := from_option id found other in
  if attempt && (current =? found) then latest else current.

Lemma update_global_frontier_raced_run other latest_frontier w :
  update_global_frontier_raced other latest_frontier w =
    Some (tt, let found := global_frontier w in
              let w1 := from_option (fun v => set_global_frontier v w) w other in
              if frontier_happens_before found latest_frontier
                 && (global_frontier w1 =? found)
              then set_global_frontier latest_frontier w1 else w1).
Proof.
  unfold update_global_frontier_raced, other_thread_stores,
    Atomic_cmpxchg_global_frontier.
  destruct other as [v|]; run_m;
    destruct (frontier_happens_before _ _); simpl; try reflexivity;
    match goal with |- context [?a =? ?b] => destruct (a =? b) end;
    reflexivity.
Qed.

Lemma native_update_global_frontier_raced_run other latest_frontier w :
  native_update_global_frontier_raced other latest_frontier w =
    Some (tt, let found := global_frontier w in
              let w1 := from_option (fun v => set_global_frontier v w) w other in
              if (found <? latest_frontier) && (global_frontier w1 =? found)
              then set_global_frontier latest_frontier w1 else w1).
Proof.
  unfold native_update_global_frontier_raced, other_thread_stores,
    Atomic_cmpxchg_global_frontier.
  destruct other as [v|]; run_m;
    destruct (_ <? _); simpl; try reflexivity;
    match goal with |- context [?a =? ?b] => destruct (a =? b) end;
    reflexivity.
Qed.

End Raced.

(** X4.  [update_global_frontier] makes one attempt and does not retry.  It
    stores [latest_frontier] exactly when the value it loaded happens before
    [latest_frontier] and is still there at the compare-and-exchange; when
    another thread has changed [global_frontier] in between, that thread's
    value stays, whether or not it happens before [latest_frontier].
    Nothing else is written.  When no other thread steps in, the call is
    [update_global_frontier] as written, it leaves [global_frontier] at a
    value that does not happen before [latest_frontier], and running it
    again changes nothing. *)
Theorem update_global_frontier_reaches_latest
    {P : Platform} (other : option Z) (latest_frontier : Z) (w : World) :
  exists w',
    update_global_frontier_raced other latest_frontier w = Some (tt, w') /\
    global_frontier w'
      = frontier_after (global_frontier w) other
          (frontier_happens_before (global_frontier w) latest_frontier)
          latest_frontier /\
    global_epoch w' = global_epoch w /\
    pending_sync w' = pending_sync w /\
    java_threads w' = java_threads w /\
    (other = None ->
       WrapAware.update_global_frontier latest_frontier w = Some (tt, w') /\
       frontier_happens_before (global_frontier w') latest_frontier = false /\
       WrapAware.update_global_frontier latest_frontier w' = Some (tt, w')).
Proof.
  rewrite update_global_frontier_raced_run. cbv zeta. unfold frontier_after.
  eexists. split; [reflexivity|].
  destruct other as [v|]; simpl.
  - destruct (frontier_happens_before (global_frontier w) latest_frontier);
      simpl; [destruct (v =? global_frontier w)|];
      (repeat (split; [reflexivity|])); discriminate.
  - rewrite Z.eqb_refl, andb_true_r.
    destruct (frontier_happens_before (global_frontier w) latest_frontier) eqn:Hlt;
      (repeat (split; [reflexivity|])); intros _;
      rewrite !wrap_update_global_frontier_run; simpl.
    + rewrite Hlt, frontier_happens_before_irrefl. repeat split.
    + rewrite Hlt. repeat split.
Qed.

(** X4 at work: the frontier stands at [3] when the call for [9] loads it;
    another thread raises it to [6] before the compare-and-exchange, which
    fails, and the frontier is left at [6], before [9]. *)
Lemma update_global_frontier_reaches_latest_witness :
  let w := scenario_world 9 3 1 [quiet_thread 9] in
  exists w',
    @update_global_frontier_raced LP64_debug (Some 6) 9 w = Some (tt, w') /\
    global_frontier w' = 6 /\
    @frontier_happens_before LP64_debug (global_frontier w') 9 = true.
Proof.
  intros w.
  destruct (@update_global_frontier_reaches_latest LP64_debug (Some 6) 9 w)
    as (w' & Hrun & Hgf & _).
  exists w'. split; [exact Hrun|].
  rewrite Hgf. split; vm_compute; reflexivity.
Defined.

(** X5.  The native-comparison [check_frontier_helper] returns [true]
    exactly when [required_frontier <= latest_frontier], whatever becomes
    of [global_frontier]; when it returns [false] the world is untouched.
    On [true] it stores [latest_frontier] exactly when the value it loaded
    is below [latest_frontier] and still there at the compare-and-exchange;
    the value another thread has stored in between stays.  When no other
    thread steps in, the call is [check_frontier_helper] as written, it
    never lowers [global_frontier], and on [true] it leaves it at the larger
    of its old value and [latest_frontier], hence at least at
    [required_frontier]. *)
Theorem native_check_frontier_helper_raises
    {P : Platform} (other : option Z) (latest_frontier required_frontier : Z)
    (w : World) :
  exists r w',
    native_check_frontier_helper_raced other latest_frontier required_frontier w
      = Some (r, w') /\
    (r = true <-> required_frontier <= latest_frontier) /\
    (r = true ->
       global_frontier w'
         = frontier_after (global_frontier w) other
             (global_frontier w <? latest_frontier) latest_frontier) /\
    (r = false -> w' = w) /\
    (other = None ->
       NativeCompare.check_frontier_helper latest_frontier required_frontier w
         = Some (r, w') /\
       global_frontier w <= global_frontier w' /\
       (r = true ->
          global_frontier w' = Z.max (global_frontier w) latest_frontier /\
          required_frontier <= global_frontier w')).
Proof.
  unfold native_check_frontier_helper_raced.
  rewrite native_check_frontier_helper_run, Z.geb_leb.
  unfold frontier_after.
  destruct (Z.leb_spec required_frontier latest_frontier) as [Hge | Hlt].
  - destruct (Z.ltb_spec latest_frontier required_frontier); [lia|].
    unfold m_bind, m_ret.
    rewrite native_update_global_frontier_raced_run. cbv zeta.
    eexists true, _. split; [reflexivity|].
    split; [split; auto|].
    destruct other as [v|]; simpl.
    + split; [|split; [discriminate|discriminate]].
      intros _.
      destruct (global_frontier w <? latest_frontier); simpl;
        [destruct (v =? global_frontier w)|]; reflexivity.
    + rewrite Z.eqb_refl, andb_true_r.
      destruct (Z.ltb_spec (global_frontier w) latest_frontier);
        (split; [intros _; reflexivity|]); (split; [discriminate|]);
        intros _; simpl; (split; [reflexivity|]); split; try lia;
        intros _; split; lia.
  - destruct (Z.ltb_spec latest_frontier required_frontier); [|lia].
    exists false, w. split; [reflexivity|].
    split; [split; [discriminate | lia]|].
    split; [discriminate|]. split; [reflexivity|].
    intros _. split; [reflexivity|]. split; [lia | discriminate].
Qed.

(** X5 at work: the minimum [9] reaches the frontier [8] required, and the
    call returns [true]; the frontier stood at [3] when it was loaded and
    another thread has raised it to [6] since, where it stays. *)
Lemma native_check_frontier_helper_raises_witness :
  let w := scenario_world 9 3 1 [quiet_thread 9] in
  exists w',
    native_check_frontier_helper_raced (Some 6) 9 8 w = Some (true, w') /\
    global_frontier w' = 6.
Proof.
  intros w.
  destruct (@native_check_frontier_helper_raises LP64_debug (Some 6) 9 8 w)
    as (r & w' & Hrun & Hr & Hgf & _).
  assert (Htrue : r = true) by (apply Hr; lia). subst r.
  exists w'. split; [exact Hrun|].
  rewrite (Hgf eq_refl). reflexivity.
Defined.

(** ** Collecting the stragglers and posting the handshakes *)

Section Stragglers.
Context {P : Platform}.

(** Positions, counted from [k], of the threads whose epoch happens before
    [required_frontier]. *)
Fixpoint straggler_indices (required_frontier : Z) (k : nat)
    (ts : list JavaThread) : list nat :=
  match ts with
  | [] => []
  | t :: ts' =>
      (if frontier_happens_before (epoch t) required_frontier then [k] else [])
        ++ straggler_indices required_frontier (S k) ts'
  end.

Lemma async_scan_threads cl k ts :
  AsyncHandshake.threads (AsyncHandshake.java_threads_do cl k ts)
    = AsyncHandshake.threads cl
      ++ (if AsyncHandshake.collect_threads cl
          then straggler_indices (AsyncHandshake.closure_required_frontier cl) k ts
          else []).
Proof.
  revert cl k. induction ts as [|t ts IH]; intros cl k; simpl.
  - destruct (AsyncHandshake.collect_threads cl); rewrite app_nil_r; reflexivity.
  - rewrite IH. simpl.
    destruct (AsyncHandshake.collect_threads cl); simpl.
    + destruct (frontier_happens_before _ _); simpl.
      * rewrite <- app_assoc. reflexivity.
      * reflexivity.
    + reflexivity.
Qed.

Lemma straggler_indices_spec required_frontier ts : forall k i,
  In i (straggler_indices required_frontier k ts) <->
  (k <= i)%nat /\
  exists t, ts !! (i - k)%nat = Some t /\
            frontier_happens_before (epoch t) required_frontier = true.
Proof.
  induction ts as [|t ts IH]; intros k i; simpl.
  - split; [intros [] | intros (_ & t & Ht & _); discriminate Ht].
  - rewrite in_app_iff, IH. split.
    + intros [Hk | (Hle & t' & Ht' & Hlt)].
      * destruct (frontier_happens_before (epoch t) required_frontier) eqn:Hlt;
          [|destruct Hk].
        destruct Hk as [<- | []]. split; [lia|].
        exists t. rewrite Nat.sub_diag. auto.
      * split; [lia|]. exists t'.
        replace (i - k)%nat with (S (i - S k)) by lia. auto.
    + intros (Hle & t' & Ht' & Hlt).
      destruct (Nat.eq_dec i k) as [-> | Hne].
      * left. rewrite Nat.sub_diag in Ht'. injection Ht' as <-.
        rewrite Hlt. left. reflexivity.
      * right. split; [lia|]. exists t'.
        replace (i - k)%nat with (S (i - S k)) in Ht' by lia. auto.
Qed.

Lemma straggler_indices_NoDup required_frontier ts : forall k,
  NoDup (straggler_indices required_frontier k ts).
Proof.
  induction ts as [|t ts IH]; intros k; simpl.
  - constructor.
  - destruct (frontier_happens_before (epoch t) required_frontier); simpl.
    + constructor; [|apply IH].
      rewrite list_elem_of_In, straggler_indices_spec. lia.
    + apply IH.
Qed.

End Stragglers.

(** X6.  After the collecting scan, the closure holds the positions of
    exactly the threads whose epoch happens before [required_frontier], each
    once; the observing scan collects nothing. *)
Theorem collected_threads_are_the_stragglers
    {P : Platform} (required_frontier : Z) (ts : list JavaThread) :
  let collected :=
    AsyncHandshake.threads
      (AsyncHandshake.java_threads_do
         (AsyncHandshake.new_closure required_frontier true) 0 ts) in
  (forall i,
      In i collected <->
      exists t, ts !! i = Some t /\
                frontier_happens_before (epoch t) required_frontier = true) /\
  NoDup collected /\
  AsyncHandshake.threads
    (AsyncHandshake.java_threads_do
       (AsyncHandshake.new_closure required_frontier false) 0 ts) = [].
Proof.
  cbv zeta. rewrite !async_scan_threads. simpl. split; [|split].
  - intros i. rewrite straggler_indices_spec, Nat.sub_0_r.
    split; [intros [_ H]; exact H | intros H; split; [lia | exact H]].
  - apply straggler_indices_NoDup.
  - reflexivity.
Qed.

Section Posting.
Context {P : Platform}.

(** From [w] to [w'] only Java threads changed, and none joined or left. *)
Definition threads_only (w w' : World) : Prop :=
  global_epoch w' = global_epoch w /\
  global_frontier w' = global_frontier w /\
  pending_sync w' = pending_sync w /\
  reset_all_epoch_scheduled w' = reset_all_epoch_scheduled w /\
  deferred_buffer w' = deferred_buffer w /\
  current_thread w' = current_thread w /\
  at_safepoint w' = at_safepoint w /\
  length (java_threads w') = length (java_threads w).

Lemma threads_only_refl w : threads_only w w.
Proof. repeat split. Qed.

Lemma threads_only_trans w1 w2 w3 :
  threads_only w1 w2 -> threads_only w2 w3 -> threads_only w1 w3.
Proof.
  unfold threads_only.
  intros (? & ? & ? & ? & ? & ? & ? & ?) (? & ? & ? & ? & ? & ? & ? & ?).
  repeat split; congruence.
Qed.

Lemma threads_only_alter f i w :
  threads_only w (set_java_threads (alter f i (java_threads w)) w).
Proof. repeat split. simpl. apply length_alter. Qed.

Lemma Handshake_try_execute_run jt w u w' :
  AsyncHandshake.Handshake_try_execute jt w = Some (u, w') ->
  threads_only w w' /\
  forall i, i <> jt -> java_threads w' !! i = java_threads w !! i.
Proof.
  unfold AsyncHandshake.Handshake_try_execute, update_epoch_self_or_other,
    modify_thread, m_bind, m_get, m_modify, m_ret.
  destruct (java_threads w !! jt) as [t|]; [destruct (blocked t)|];
    [rewrite update_epoch_internal_run;
     destruct (ASSERT && negb (may_update jt w)); [discriminate|]| |];
    intros [= _ <-];
    (split; [first [apply threads_only_alter | apply threads_only_refl]|]);
    intros i Hne; simpl; try reflexivity;
    apply list_lookup_alter_ne; auto.
Qed.

Lemma post_handshakes_cons self jt rest count w :
  AsyncHandshake.post_handshakes self (jt :: rest) count w =
    if ASSERT && is_thread_at jt self then None
    else if from_option has_operation false (java_threads w !! jt)
         then AsyncHandshake.post_handshakes self rest count w
         else match AsyncHandshake.Handshake_try_execute jt w with
              | Some (_, w1) =>
                  AsyncHandshake.post_handshakes self rest (uintx_add count 1) w1
              | None => None
              end.
Proof.
  simpl. unfold m_bind, m_get, assert_that. rewrite negb_involutive.
  destruct (ASSERT && is_thread_at jt self); [reflexivity|].
  destruct (from_option has_operation false (java_threads w !! jt));
    reflexivity.
Qed.

Lemma uintx_add_1_bounds c : 0 <= c -> 0 <= uintx_add c 1 <= c + 1.
Proof.
  intros Hc. unfold uintx_add, to_uintx. pose proof uintx_modulus_pos.
  split.
  - apply Z.mod_pos_bound. lia.
  - apply Z.mod_le; lia.
Qed.

Lemma post_handshakes_frame self targets : forall count w n w',
  AsyncHandshake.post_handshakes self targets count w = Some (n, w') ->
  threads_only w w' /\
  (forall i, ~ In i targets -> java_threads w' !! i = java_threads w !! i) /\
  (0 <= count -> 0 <= n <= count + Z.of_nat (length targets)).
Proof.
  induction targets as [|jt rest IH]; intros count w n w'.
  - simpl. intros [= <- <-]. split; [apply threads_only_refl|].
    split; [reflexivity | lia].
  - rewrite post_handshakes_cons.
    destruct (ASSERT && is_thread_at jt self); [discriminate|].
    destruct (from_option has_operation false (java_threads w !! jt)).
    + intros Hrest. apply IH in Hrest as (Hf & Hl & Hn).
      split; [exact Hf|]. split.
      * intros i Hi. apply Hl. intros Hin. apply Hi. right. exact Hin.
      * intros Hc. specialize (Hn Hc). simpl length. lia.
    + destruct (AsyncHandshake.Handshake_try_execute jt w) as [[u w1]|] eqn:Hexec;
        [|discriminate].
      apply Handshake_try_execute_run in Hexec as (Hf1 & Hl1).
      intros Hrest. apply IH in Hrest as (Hf & Hl & Hn).
      split; [eapply threads_only_trans; eassumption|]. split.
      * intros i Hi. rewrite Hl, Hl1; [reflexivity| |].
        -- intros ->. apply Hi. left. reflexivity.
        -- intros Hin. apply Hi. right. exact Hin.
      * intros Hc. pose proof (uintx_add_1_bounds count Hc) as Hb.
        specialize (Hn (proj1 Hb)). simpl length. lia.
Qed.

Lemma async_handshake_run this w :
  let R := required_frontier this in
  let cl := AsyncHandshake.java_threads_do
              (AsyncHandshake.new_closure R true) 0 (java_threads w) in
  AsyncHandshake.async_handshake this w =
    if frontier_happens_before (AsyncHandshake.min_epoch cl) R
    then if Nat.eqb (length (AsyncHandshake.threads cl)) 0 then Some (0, w)
         else AsyncHandshake.post_handshakes (current_thread w)
                (AsyncHandshake.threads cl) 0 w
    else Some (0, if frontier_happens_before (global_frontier w)
                       (AsyncHandshake.min_epoch cl)
                  then set_global_frontier (AsyncHandshake.min_epoch cl) w
                  else w).
Proof.
  cbv zeta. unfold AsyncHandshake.async_handshake. unfold m_bind at 1 2 3.
  unfold m_get. rewrite wrap_check_frontier_helper_run.
  destruct (frontier_happens_before _ (required_frontier this)); [|reflexivity].
  destruct (Nat.eqb _ 0); reflexivity.
Qed.

End Posting.

(** X7.  [async_handshake] changes neither [global_epoch] nor
    [pending_sync], and no thread joins or leaves; a thread whose epoch does
    not happen before [required_frontier] is left exactly as it was; the
    count returned is at most the number of stragglers, and when it is not
    zero [global_frontier] is unchanged too.  With no straggler the count is
    zero and every thread is untouched. *)
Theorem async_handshake_touches_only_stragglers
    {P : Platform} (this : G1EpochSynchronizer) (w w' : World) (n : Z) :
  AsyncHandshake.async_handshake this w = Some (n, w') ->
  let R := required_frontier this in
  global_epoch w' = global_epoch w /\
  pending_sync w' = pending_sync w /\
  length (java_threads w') = length (java_threads w) /\
  (forall i t, java_threads w !! i = Some t ->
               frontier_happens_before (epoch t) R = false ->
               java_threads w' !! i = Some t) /\
  0 <= n <= Z.of_nat (length (straggler_indices R 0 (java_threads w))) /\
  (n <> 0 -> global_frontier w' = global_frontier w) /\
  (straggler_indices R 0 (java_threads w) = [] ->
   n = 0 /\ java_threads w' = java_threads w).
Proof.
  intros Hrun R. rewrite async_handshake_run in Hrun. cbv zeta in Hrun.
  fold R in Hrun. rewrite async_scan_threads in Hrun. simpl in Hrun.
  assert (Hdone : forall g,
             global_epoch (set_global_frontier g w) = global_epoch w /\
             pending_sync (set_global_frontier g w) = pending_sync w /\
             java_threads (set_global_frontier g w) = java_threads w)
    by (intros g; repeat split).
  destruct (frontier_happens_before _ R).
  - destruct (Nat.eqb_spec (length (straggler_indices R 0 (java_threads w))) 0)
      as [Hnone | Hsome].
    + injection Hrun as <- <-.
      split; [reflexivity|]. split; [reflexivity|]. split; [reflexivity|].
      split; [intros i t Ht _; exact Ht|]. split; [lia|].
      split; [reflexivity|]. intros _. split; reflexivity.
    + apply post_handshakes_frame in Hrun as (Hf & Hl & Hn).
      destruct Hf as (Hge & Hgf & Hps & _ & _ & _ & _ & Hlen).
      specialize (Hn (Z.le_refl 0)).
      split; [exact Hge|]. split; [exact Hps|]. split; [exact Hlen|].
      split; [|split; [lia|split; [intros _; exact Hgf|]]].
      * intros i t Ht Hlt. rewrite Hl; [exact Ht|].
        rewrite straggler_indices_spec, Nat.sub_0_r.
        intros (_ & t' & Ht' & Hlt'). congruence.
      * intros Hnil. rewrite Hnil in Hsome. contradiction.
  - injection Hrun as <- <-.
    assert (Hn : 0 <= 0 <= Z.of_nat
                   (length (straggler_indices R 0 (java_threads w)))) by lia.
    destruct (frontier_happens_before (global_frontier w) _).
    + destruct (Hdone (AsyncHandshake.min_epoch
                         (AsyncHandshake.java_threads_do
                            (AsyncHandshake.new_closure R true) 0
                            (java_threads w)))) as (Hge & Hps & Hts).
      rewrite Hge, Hps, Hts.
      split; [reflexivity|]. split; [reflexivity|]. split; [reflexivity|].
      split; [intros i t Ht _; exact Ht|]. split; [exact Hn|].
      split; [intros Hne; contradiction|]. intros _. split; reflexivity.
    + split; [reflexivity|]. split; [reflexivity|]. split; [reflexivity|].
      split; [intros i t Ht _; exact Ht|]. split; [exact Hn|].
      split; [reflexivity|]. intros _. split; reflexivity.
Qed.

Lemma async_handshake_touches_only_stragglers_witness :
  let this := {| required_frontier := 11 |} in
  let w := straggler_world (quiet_thread 9) in
  let w' := straggler_world (set_has_operation true (quiet_thread 9)) in
  @AsyncHandshake.async_handshake LP64_debug this w = Some (1, w') /\
  global_epoch w' = global_epoch w /\
  pending_sync w' = pending_sync w /\
  length (java_threads w') = length (java_threads w) /\
  (forall i t, java_threads w !! i = Some t ->
               @frontier_happens_before LP64_debug (epoch t) 11 = false ->
               java_threads w' !! i = Some t) /\
  0 <= 1 <= Z.of_nat
              (length (@straggler_indices LP64_debug 11 0 (java_threads w))).
Proof.
  intros this w w'.
  assert (Hrun : @AsyncHandshake.async_handshake LP64_debug this w
                 = Some (1, w')) by (vm_compute; reflexivity).
  split; [exact Hrun|].
  pose proof (@async_handshake_touches_only_stragglers LP64_debug
                this w w' 1 Hrun) as H.
  cbv zeta in H. tauto.
Defined.

(** ** The poll-arming scan *)

(** Case analysis on the tests met along a run recorded in [H]. *)
Ltac break_run H :=
  repeat (match type of H with
          | context [match ?x with _ => _ end] =>
              lazymatch x with
              | context [match _ with _ => _ end] => fail
              | _ => destruct x eqn:?; try discriminate H
              end
          end; cbv beta iota in H).

Section ArmPollScan.
Context {P : Platform}.

Lemma arm_poll_do_thread_observe cl i t w :
  ArmPoll.arm_poll cl = false ->
  java_threads w !! i = Some t ->
  ArmPoll.do_thread cl i w =
    Some ({| ArmPoll.arm_poll := false;
             ArmPoll.closure_required_frontier := ArmPoll.closure_required_frontier cl;
             ArmPoll.min_epoch := wrap_min_step (ArmPoll.min_epoch cl) (epoch t);
             ArmPoll.armed_threads := ArmPoll.armed_threads cl;
             ArmPoll.report_straggler := ArmPoll.report_straggler cl |}, w).
Proof.
  intros Harm Ht. unfold ArmPoll.do_thread, load_epoch, m_bind, m_ret.
  rewrite Ht, Harm. reflexivity.
Qed.

Lemma arm_poll_scan_observe n : forall k cl w,
  ArmPoll.arm_poll cl = false ->
  (k + n)%nat = length (java_threads w) ->
  exists cl',
    ArmPoll.java_threads_do cl (seq k n) w = Some (cl', w) /\
    ArmPoll.min_epoch cl'
      = fold_left wrap_min_step (map epoch (drop k (java_threads w)))
          (ArmPoll.min_epoch cl).
Proof.
  induction n as [|n IH]; intros k cl w Harm Hlen; simpl.
  - exists cl. split; [reflexivity|].
    rewrite drop_ge by lia. reflexivity.
  - destruct (lookup_lt_is_Some_2 (java_threads w) k) as [t Ht]; [lia|].
    unfold m_bind. rewrite (arm_poll_do_thread_observe cl k t w Harm Ht).
    edestruct (IH (S k)) as (cl' & Hrun & Hmin);
      [| |exists cl'; split; [exact Hrun|]].
    + reflexivity.
    + lia.
    + rewrite Hmin. simpl. rewrite (drop_S _ _ _ Ht). reflexivity.
Qed.

Lemma arm_poll_check_synchronized_inner_run this report w :
  ArmPoll.check_synchronized_inner this report w
    = AsyncHandshake.check_synchronized_inner this w.
Proof.
  rewrite check_synchronized_inner_run.
  unfold ArmPoll.check_synchronized_inner, may_check, self_updated,
    own_epoch_in_order, scanned_min_epoch, update_epoch_self,
    update_epoch_internal, modify_thread, ArmPoll.all_java_threads.
  destruct w as [ge gf ps rs ts db ct sp]. run_m.
  destruct ASSERT, sp; simpl; try reflexivity;
    destruct ct as [i| |]; simpl; rewrite ?Nat.eqb_refl; simpl;
    try reflexivity;
    try (destruct (from_option _ true (ts !! i)); simpl; try reflexivity);
    match goal with
    | |- context [frontier_happens_before ?a ?b] =>
        destruct (frontier_happens_before a b); [|reflexivity]
    end;
    simpl;
    match goal with
    | |- context [ArmPoll.java_threads_do ?cl (seq 0 (length ?ts)) ?w0] =>
        destruct (arm_poll_scan_observe (length ts) 0 cl w0 eq_refl eq_refl)
          as (cl' & -> & ->)
    end;
    simpl;
    match goal with
    | |- context [AsyncHandshake.java_threads_do ?cl 0 ?ts] =>
        destruct (async_scan_fields cl 0 ts) as (-> & _)
    end;
    reflexivity.
Qed.

Lemma arm_poll_do_thread_frame cl i w cl' w' :
  ArmPoll.do_thread cl i w = Some (cl', w') ->
  threads_only w w' /\
  (forall j, j <> i -> java_threads w' !! j = java_threads w !! j) /\
  ArmPoll.arm_poll cl' = ArmPoll.arm_poll cl /\
  ArmPoll.closure_required_frontier cl' = ArmPoll.closure_required_frontier cl.
Proof.
  unfold ArmPoll.do_thread, load_epoch, ArmPoll.DelegateProcessingScope_processed,
    update_epoch_self_or_other, update_epoch_internal, modify_thread.
  run_m. intros H. break_run H; injection H as <- <-; simpl;
    (split; [repeat split; simpl; rewrite ?length_alter; reflexivity|]);
    (split; [|split; reflexivity]);
    intros other Hother; simpl; rewrite ?list_lookup_alter_ne by auto;
    reflexivity.
Qed.

Lemma arm_poll_scan_frame idx : forall cl w cl' w',
  ArmPoll.java_threads_do cl idx w = Some (cl', w') ->
  threads_only w w' /\
  (forall j, ~ In j idx -> java_threads w' !! j = java_threads w !! j).
Proof.
  induction idx as [|i idx IH]; intros cl w cl' w'; simpl.
  - intros [= <- <-]. split; [apply threads_only_refl | reflexivity].
  - unfold m_bind.
    destruct (ArmPoll.do_thread cl i w) as [[cl1 w1]|] eqn:Hone; [|discriminate].
    apply arm_poll_do_thread_frame in Hone as (Hf1 & Hl1 & _).
    intros Hrest. apply IH in Hrest as (Hf & Hl).
    split; [eapply threads_only_trans; eassumption|].
    intros j Hj. rewrite Hl, Hl1; [reflexivity| |].
    + intros ->. apply Hj. left. reflexivity.
    + intros Hin. apply Hj. right. exact Hin.
Qed.

Lemma arm_local_polls_frame this w n w' :
  ArmPoll.arm_local_polls this w = Some (n, w') ->
  global_epoch w' = global_epoch w /\ pending_sync w' = pending_sync w /\
  length (java_threads w') = length (java_threads w).
Proof.
  unfold ArmPoll.arm_local_polls, ArmPoll.all_java_threads.
  unfold m_bind at 1 2. unfold m_get, m_ret. unfold m_bind at 1.
  destruct (ArmPoll.java_threads_do _ _ w) as [[cl w1]|] eqn:Hscan;
    [|discriminate].
  apply arm_poll_scan_frame in Hscan as ((Hge & _ & Hps & _ & _ & _ & _ & Hlen) & _).
  unfold m_bind. rewrite wrap_check_frontier_helper_run.
  destruct (frontier_happens_before (ArmPoll.min_epoch cl) _).
  - intros [= <- <-]. auto.
  - unfold assert_that.
    destruct (frontier_happens_before (global_frontier w1) _);
      destruct (ASSERT && _); try discriminate; intros [= <- <-]; simpl; auto.
Qed.

Lemma arm_poll_check_synchronized_run this report w :
  ArmPoll.check_synchronized this report w
    = AsyncHandshake.check_synchronized this w.
Proof.
  unfold ArmPoll.check_synchronized, AsyncHandshake.check_synchronized, m_bind.
  rewrite arm_poll_check_synchronized_inner_run. reflexivity.
Qed.

End ArmPollScan.

(** X8.  The two wrap-aware generations take the same decision: the
    observing scan of the poll-arming closure changes nothing and ends on
    the [min_epoch] of the handshake closure, and [check_synchronized_inner]
    and [check_synchronized] of the poll-arming generation, whatever their
    [report_straggler], return the result and leave the world that those of
    the handshake generation do. *)
Theorem arm_poll_check_synchronized_agrees
    {P : Platform} (this : G1EpochSynchronizer) (report : bool) (w : World) :
  (exists cl,
      ArmPoll.java_threads_do
        (ArmPoll.new_closure (required_frontier this) false report)
        (seq 0 (length (java_threads w))) w = Some (cl, w) /\
      ArmPoll.min_epoch cl = scanned_min_epoch (required_frontier this) w) /\
  ArmPoll.check_synchronized_inner this report w
    = AsyncHandshake.check_synchronized_inner this w /\
  ArmPoll.check_synchronized this report w
    = AsyncHandshake.check_synchronized this w.
Proof.
  split; [|split].
  - destruct (arm_poll_scan_observe (length (java_threads w)) 0
                (ArmPoll.new_closure (required_frontier this) false report) w
                eq_refl eq_refl) as (cl & Hrun & Hmin).
    exists cl. split; [exact Hrun|]. rewrite Hmin. unfold scanned_min_epoch.
    destruct (async_scan_fields
                (AsyncHandshake.new_closure (required_frontier this) false) 0
                (java_threads w)) as (-> & _).
    reflexivity.
  - apply arm_poll_check_synchronized_inner_run.
  - apply arm_poll_check_synchronized_run.
Qed.

(** ** The count of pending synchronizations *)

Section Accounting.
Context {P : Platform}.

(** [pending_sync] after a call that returned [r]: one less, in a debug
    build, when [r] is [true]. *)
Definition pending_sync_after (r : bool) (w : World) : Z :=
  if r && ASSERT then uintx_sub (pending_sync w) 1 else pending_sync w.

Lemma check_synchronized_accounting this w r w' :
  AsyncHandshake.check_synchronized this w = Some (r, w') ->
  global_epoch w' = global_epoch w /\
  pending_sync w' = pending_sync_after r w.
Proof.
  rewrite check_synchronized_run.
  destruct (AsyncHandshake.check_synchronized_inner this w) as [[r1 w1]|] eqn:Hin;
    [|discriminate].
  apply check_synchronized_inner_result in Hin as (_ & Hw1). cbv zeta in Hw1.
  destruct (self_updated_fields w) as (Hge & _ & Hps & _).
  assert (Hw1' : global_epoch w1 = global_epoch w /\ pending_sync w1 = pending_sync w).
  { subst w1. destruct (_ && _ && _); simpl; auto. }
  destruct Hw1' as (Hge1 & Hps1). unfold pending_sync_after.
  destruct r1; intros [= <- <-].
  - destruct (pending_sync_decremented_fields w1) as (-> & _ & _ & _ & _ & ->).
    simpl. rewrite Hps1. destruct ASSERT; auto.
  - simpl. auto.
Qed.

Lemma async_spin_accounting this start ticks : forall w r w',
  AsyncHandshake.spin this start ticks w = Some (Some r, w') ->
  global_epoch w' = global_epoch w /\
  pending_sync w' = pending_sync_after r w.
Proof.
  induction ticks as [|t ticks IH]; intros w r w'; simpl; unfold m_bind;
    destruct (AsyncHandshake.check_synchronized this w) as [[[|] w1]|] eqn:Hc;
    try discriminate;
    apply check_synchronized_accounting in Hc as (Hge & Hps).
  - intros [= <- <-]. auto.
  - intros [= <- <-]. auto.
  - destruct (_ >? _).
    + intros [= <- <-]. auto.
    + unfold m_modify. intros Hrest. apply IH in Hrest as (Hge' & Hps').
      simpl in Hge', Hps'. rewrite Hge', Hps'.
      unfold pending_sync_after in *. simpl in *. rewrite Hps.
      split; congruence.
Qed.

Lemma arm_poll_spin_accounting this report start ticks : forall w r w',
  ArmPoll.spin this report start ticks w = Some (Some r, w') ->
  global_epoch w' = global_epoch w /\
  pending_sync w' = pending_sync_after r w.
Proof.
  induction ticks as [|t ticks IH]; intros w r w'; simpl; unfold m_bind;
    rewrite arm_poll_check_synchronized_run;
    destruct (AsyncHandshake.check_synchronized this w) as [[[|] w1]|] eqn:Hc;
    try discriminate;
    apply check_synchronized_accounting in Hc as (Hge & Hps).
  - intros [= <- <-]. auto.
  - intros [= <- <-]. auto.
  - destruct (_ || _).
    + intros [= <- <-]. auto.
    + unfold m_modify. intros Hrest. apply IH in Hrest as (Hge' & Hps').
      simpl in Hge', Hps'. rewrite Hge', Hps'.
      unfold pending_sync_after in *. simpl in *. rewrite Hps.
      split; congruence.
Qed.

Lemma escalate_of_frame g this w n w' :
  escalate_of g this w = Some (n, w') ->
  global_epoch w' = global_epoch w /\ pending_sync w' = pending_sync w.
Proof.
  destruct g; simpl; intros Hrun.
  - rewrite async_handshake_run in Hrun. cbv zeta in Hrun.
    destruct (frontier_happens_before _ (required_frontier this)).
    + destruct (Nat.eqb _ 0).
      * injection Hrun as <- <-. auto.
      * apply post_handshakes_frame in Hrun as ((? & _ & ? & _) & _). auto.
    + injection Hrun as <- <-.
      destruct (frontier_happens_before (global_frontier w) _); auto.
  - apply arm_local_polls_frame in Hrun as (? & ? & _). auto.
Qed.

Lemma synchronize_of_accounting g this start ticks w r w' :
  synchronize_of g this start ticks w = Some (Some r, w') ->
  global_epoch w' = global_epoch w /\
  pending_sync w' = pending_sync_after r w.
Proof.
  rewrite synchronize_of_run.
  assert (Hcheck : check_synchronized_of g this w
                   = AsyncHandshake.check_synchronized this w).
  { destruct g; [reflexivity|].
    apply arm_poll_check_synchronized_run. }
  rewrite Hcheck.
  destruct (AsyncHandshake.check_synchronized this w) as [[[|] w1]|] eqn:Hc;
    try discriminate;
    apply check_synchronized_accounting in Hc as (Hge & Hps).
  - intros [= <- <-]. auto.
  - destruct (escalate_of g this w1) as [[n w2]|] eqn:He; [|discriminate].
    apply escalate_of_frame in He as (Hge2 & Hps2).
    unfold pending_sync_after in Hps. simpl in Hps.
    destruct (n =? 0).
    + intros [= <- <-].
      destruct (pending_sync_decremented_fields w2) as (-> & _ & _ & _ & _ & ->).
      unfold pending_sync_after. simpl.
      destruct ASSERT; split; congruence.
    + intros Hspin.
      assert (Hs : global_epoch w' = global_epoch w2 /\
                   pending_sync w' = pending_sync_after r w2).
      { destruct g; eauto using async_spin_accounting, arm_poll_spin_accounting. }
      destruct Hs as (-> & ->). unfold pending_sync_after.
      rewrite Hps2, Hps. split; congruence.
Qed.

Lemma start_synchronizing_run w :
  WrapAware.start_synchronizing w =
    if ASSERT && at_safepoint w then None
    else Some (uintx_add (global_epoch w) 1,
               set_global_epoch (uintx_add (global_epoch w) 1)
                 (if ASSERT
                  then set_pending_sync (uintx_add (pending_sync w) 1) w
                  else w)).
Proof.
  unfold WrapAware.start_synchronizing, Atomic_add_global_epoch. run_m.
  rewrite negb_involutive.
  destruct ASSERT; simpl; [destruct (at_safepoint w)|]; reflexivity.
Qed.

End Accounting.

(** X9.  A finished [synchronize], of either generation, leaves
    [global_epoch] as it found it; when it returns [true] a debug build has
    decremented [pending_sync] exactly once, and when it returns [false]
    [pending_sync] is unchanged, so the deferred initiator stays counted. *)
Theorem synchronize_counts_pending_sync
    {P : Platform} (g : Generation) (this : G1EpochSynchronizer)
    (start_timestamp : Z) (ticks : list Tick) (w w' : World) (r : bool) :
  synchronize_of g this start_timestamp ticks w = Some (Some r, w') ->
  global_epoch w' = global_epoch w /\
  pending_sync w'
    = (if r then if ASSERT then uintx_sub (pending_sync w) 1 else pending_sync w
       else pending_sync w).
Proof.
  intros Hrun. apply synchronize_of_accounting in Hrun as (Hge & Hps).
  split; [exact Hge|]. rewrite Hps. unfold pending_sync_after.
  destruct r; reflexivity.
Qed.

Lemma synchronize_counts_pending_sync_witness :
  let this := {| required_frontier := 6 |} in
  let ts := [quiet_thread 6; quiet_thread 6; quiet_thread 6] in
  @synchronize_of LP64_debug ByArmPoll this 100 [] (scenario_world 6 5 1 ts)
    = Some (Some true, scenario_world 6 5 0 ts) /\
  global_epoch (scenario_world 6 5 0 ts) = global_epoch (scenario_world 6 5 1 ts) /\
  pending_sync (scenario_world 6 5 0 ts)
    = @uintx_sub LP64_debug (pending_sync (scenario_world 6 5 1 ts)) 1.
Proof.
  intros this ts.
  assert (Hrun : @synchronize_of LP64_debug ByArmPoll this 100 []
                   (scenario_world 6 5 1 ts)
                 = Some (Some true, scenario_world 6 5 0 ts))
    by (vm_compute; reflexivity).
  split; [exact Hrun|].
  exact (@synchronize_counts_pending_sync LP64_debug ByArmPoll this 100 []
           (scenario_world 6 5 1 ts) (scenario_world 6 5 0 ts) true Hrun).
Defined.

(** X10.  An initiator made with [start_sync = true] holds the new global
    epoch as its frontier.  Whatever the mutators do to their threads in
    between, a finished [synchronize] on it that returns [true] brings
    [pending_sync] back to its value before the construction; one that
    returns [false] leaves the initiator counted. *)
Theorem start_then_synchronize_balances_pending_sync
    {P : Platform} (g : Generation) (start_timestamp : Z) (ticks : list Tick)
    (ts : list JavaThread) (w w1 w2 : World) (this : G1EpochSynchronizer)
    (r : bool) :
  is_uintx (pending_sync w) ->
  WrapAware.new_G1EpochSynchronizer true w = Some (this, w1) ->
  synchronize_of g this start_timestamp ticks (set_java_threads ts w1)
    = Some (Some r, w2) ->
  required_frontier this = uintx_add (global_epoch w) 1 /\
  global_epoch w2 = required_frontier this /\
  pending_sync w2
    = (if r then pending_sync w
       else if ASSERT then uintx_add (pending_sync w) 1 else pending_sync w).
Proof.
  intros Hps Hnew Hrun.
  unfold WrapAware.new_G1EpochSynchronizer, m_bind in Hnew.
  rewrite start_synchronizing_run in Hnew.
  destruct (ASSERT && at_safepoint w); [discriminate|].
  injection Hnew as <- <-. simpl required_frontier.
  apply synchronize_of_accounting in Hrun as (Hge & Hp). simpl in Hge, Hp.
  split; [reflexivity|]. split; [exact Hge|].
  rewrite Hp. unfold pending_sync_after. simpl.
  destruct r, ASSERT; simpl; try reflexivity.
  apply uintx_add_sub. exact Hps.
Qed.

Lemma start_then_synchronize_balances_pending_sync_witness :
  let before := [quiet_thread 5; quiet_thread 5; quiet_thread 5] in
  let after := [quiet_thread 6; quiet_thread 6; quiet_thread 6] in
  let this := {| required_frontier := 6 |} in
  @is_uintx LP64_debug (pending_sync (scenario_world 5 5 0 before)) /\
  required_frontier this = @uintx_add LP64_debug 5 1 /\
  global_epoch (scenario_world 6 5 0 after) = required_frontier this /\
  pending_sync (scenario_world 6 5 0 after) = 0.
Proof.
  intros before after this.
  assert (Hps : @is_uintx LP64_debug (pending_sync (scenario_world 5 5 0 before)))
    by (vm_compute; intuition discriminate).
  split; [exact Hps|].
  apply (@start_then_synchronize_balances_pending_sync LP64_debug
           ByAsyncHandshake 100 [] after
           (scenario_world 5 5 0 before) (scenario_world 6 5 1 before)
           (scenario_world 6 5 0 after) this true Hps);
    vm_compute; reflexivity.
Defined.

(** ** The rest of the native-comparison generation *)

Module NativeSync.
Section Generation.
Context {P : Platform}.

(** [Atomic::cmpxchg(&_reset_all_epoch_scheduled, compare, exchange)]:
    returns the value found. *)
Definition Atomic_cmpxchg_reset_all_epoch_scheduled (compare exchange : bool)
  : M bool :=
  old <- m_get reset_all_epoch_scheduled ;;
  (if Bool.eqb old compare
   then m_modify (set_reset_all_epoch_scheduled exchange)
   else m_ret tt) ;;
  m_ret old.

(** [G1EpochSynchronizer::handle_overflow].  [_EPOCH_RESET_THRESHOLD] is
    declared in the header of this generation, which is not among the
    sources, and is taken as a parameter.  The result tells whether
    [G1EpochResetTask::schedule()] was called. *)
Definition handle_overflow (_EPOCH_RESET_THRESHOLD required_frontier : Z)
  : M bool :=
  scheduled <- m_get reset_all_epoch_scheduled ;;
  if (required_frontier >? _EPOCH_RESET_THRESHOLD) && negb scheduled
  then
    old <- Atomic_cmpxchg_reset_all_epoch_scheduled false true ;;
    if Bool.eqb old false then m_ret true else m_ret false
  else m_ret false.

(** [G1EpochSynchronizer::start_synchronizing]; returns the frontier and
    whether a reset was scheduled. *)
Definition start_synchronizing (_EPOCH_RESET_THRESHOLD : Z) : M (Z * bool) :=
  assert_not_at_safepoint ;;
  (if ASSERT
   then m_modify (fun w => set_pending_sync (uintx_add (pending_sync w) 1) w)
   else m_ret tt) ;;
  required_frontier <- Atomic_add_global_epoch 1 ;;
  scheduled <- handle_overflow _EPOCH_RESET_THRESHOLD required_frontier ;;
  m_ret (required_frontier, scheduled).

(** A run of initiations: [start_synchronizing] once for each element of
    [initiators]; returns how many of them scheduled a reset. *)
Fixpoint start_synchronizing_times (_EPOCH_RESET_THRESHOLD : Z)
    (initiators : nat) : M nat :=
  match initiators with
  | O => m_ret O
  | S n =>
      r <- start_synchronizing _EPOCH_RESET_THRESHOLD ;;
      k <- start_synchronizing_times _EPOCH_RESET_THRESHOLD n ;;
      m_ret (if snd r then S k else k)
  end.

End Generation.
End NativeSync.

(** g1EpochResetTask.cpp *)

Definition enter_safepoint_on_VM_thread (w : World) : World :=
  {| global_epoch := global_epoch w; global_frontier := global_frontier w;
     pending_sync := pending_sync w;
     reset_all_epoch_scheduled := reset_all_epoch_scheduled w;
     java_threads := java_threads w; deferred_buffer := deferred_buffer w;
     current_thread := VMThread; at_safepoint := true |}.

(** The world [w'] with the running thread [cur], outside a safepoint. *)
Definition resume (cur : Thread) (w' : World) : World :=
  {| global_epoch := global_epoch w'; global_frontier := global_frontier w';
     pending_sync := pending_sync w';
     reset_all_epoch_scheduled := reset_all_epoch_scheduled w';
     java_threads := java_threads w'; deferred_buffer := deferred_buffer w';
     current_thread := cur; at_safepoint := false |}.

Section ResetTask.
Context {P : Platform}.

(** Modelled from the spec: [VMThread::execute] is not among the sources.
    Section 6: the operation is run at a safepoint on the VM thread; the
    caller then goes on outside the safepoint. *)
Definition VMThread_execute (doit : M unit) : M unit :=
  fun w => match doit (enter_safepoint_on_VM_thread w) with
           | Some (_, w') => Some (tt, resume (current_thread w) w')
           | None => None
           end.

(** [VM_G1ResetEpoch::doit] *)
Definition VM_G1ResetEpoch_doit : M unit := NativeCompare.reset_all_epoch.

(** [G1EpochResetTask::execute] *)
Definition G1EpochResetTask_execute : M unit :=
  VMThread_execute VM_G1ResetEpoch_doit.

End ResetTask.

Section NativeFacts.
Context {P : Platform}.

(** [cl.min_epoch()] after the observing scan of the native closure. *)
Definition native_scanned_min_epoch (required_frontier : Z) (w : World) : Z :=
  NativeCompare.min_epoch
    (NativeCompare.java_threads_do
       (NativeCompare.new_closure required_frontier false) 0 (java_threads w)).

Lemma native_check_synchronized_inner_run this w :
  NativeCompare.check_synchronized_inner this w =
    if ASSERT && negb (may_check w) then None
    else
      let w1 := self_updated w in
      if global_frontier w1 <? required_frontier this
      then NativeCompare.check_frontier_helper
             (native_scanned_min_epoch (required_frontier this) w1)
             (required_frontier this) w1
      else Some (true, w1).
Proof.
  unfold NativeCompare.check_synchronized_inner, may_check, self_updated,
    own_epoch_in_order, native_scanned_min_epoch, update_epoch_self,
    update_epoch_internal, modify_thread.
  destruct w as [ge gf ps rs ts db ct sp]. run_m.
  destruct ASSERT, sp; simpl; try reflexivity;
    destruct ct as [i| |]; simpl; rewrite ?Nat.eqb_refl; simpl;
    try reflexivity;
    try (destruct (from_option _ true (ts !! i)); simpl; try reflexivity);
    rewrite Z.geb_leb, Z.leb_antisym;
    match goal with
    | |- context [?a <? ?b] => destruct (a <? b); reflexivity
    end.
Qed.

Lemma fold_MIN2_ge R es : forall m,
  R <= fold_left MIN2 es m <-> R <= m /\ Forall (fun e => R <= e) es.
Proof.
  induction es as [|e es IH]; intros m; simpl.
  - split; [intros H; split; [exact H | constructor] | intros [H _]; exact H].
  - rewrite IH. unfold MIN2. split.
    + intros [Hm Hes]. destruct (Z.ltb_spec m e); split; try constructor;
        auto; lia.
    + intros [Hm Hes]. apply Forall_cons_iff in Hes as [He Hes].
      split; [|exact Hes]. destruct (Z.ltb_spec m e); lia.
Qed.

Lemma native_scanned_min_epoch_ge R w :
  is_uintx R ->
  (R <= native_scanned_min_epoch R w
   <-> Forall (fun t => R <= epoch t) (java_threads w)).
Proof.
  intros HR. unfold native_scanned_min_epoch. rewrite native_scan_fields.
  simpl. rewrite fold_MIN2_ge, List.Forall_map, max_uintx_eq.
  unfold is_uintx in HR. intuition lia.
Qed.

End NativeFacts.

(** X11.  In the native-comparison generation, with the assertions of
    [check_synchronized_inner] and of the updater met and a [uintx] frontier
    required, the call returns [true] exactly when the [global_frontier] it
    loads has reached the required frontier or every Java thread's epoch
    (the caller's own being brought up to date first) has; it writes no
    thread's epoch but the caller's own, and neither [global_epoch] nor
    [pending_sync]. *)
Theorem native_check_synchronized_inner_decides
    {P : Platform} (this : G1EpochSynchronizer) (w : World) :
  may_check w = true ->
  is_uintx (required_frontier this) ->
  exists r w',
    NativeCompare.check_synchronized_inner this w = Some (r, w') /\
    (r = true <->
       required_frontier this <= global_frontier w
       \/ Forall (fun t => required_frontier this <= epoch t)
            (java_threads (self_updated w))) /\
    java_threads w' = java_threads (self_updated w) /\
    global_epoch w' = global_epoch w /\
    pending_sync w' = pending_sync w.
Proof.
  intros Hmay HR. rewrite native_check_synchronized_inner_run, Hmay.
  rewrite andb_false_r. cbv zeta.
  destruct (self_updated_fields w) as (Hge & Hgf & Hps & _).
  rewrite native_check_frontier_helper_run.
  pose proof (native_scanned_min_epoch_ge (required_frontier this)
                (self_updated w) HR) as Hmin.
  set (m := native_scanned_min_epoch (required_frontier this) (self_updated w)) in *.
  rewrite Hgf.
  destruct (Z.ltb_spec (global_frontier w) (required_frontier this)) as [HG | HG].
  - destruct (Z.ltb_spec m (required_frontier this)) as [Hm | Hm].
    + exists false, (self_updated w). split; [reflexivity|].
      split; [|rewrite Hge, Hps; repeat split].
      split; [discriminate|]. intros [H | H]; [lia|]. apply Hmin in H. lia.
    + destruct (Z.ltb_spec (global_frontier w) m) as [Hr | Hr]; [|lia].
      exists true, (set_global_frontier m (self_updated w)).
      split; [reflexivity|]. simpl. rewrite Hge, Hps.
      split; [|repeat split].
      split; [intros _; right; apply Hmin; exact Hm | reflexivity].
  - exists true, (self_updated w). split; [reflexivity|].
    rewrite Hge, Hps. split; [|repeat split].
    split; [intros _; left; lia | reflexivity].
Qed.

Lemma native_check_synchronized_inner_decides_witness :
  let this := {| required_frontier := 6 |} in
  let w := java_caller_world 1 6 5 1 [quiet_thread 6; quiet_thread 4; quiet_thread 6] in
  (may_check w = true /\ @is_uintx LP64_debug (required_frontier this)) /\
  exists r w',
    @NativeCompare.check_synchronized_inner LP64_debug this w = Some (r, w') /\
    (r = true <->
       required_frontier this <= global_frontier w
       \/ Forall (fun t => required_frontier this <= epoch t)
            (java_threads (self_updated w))) /\
    java_threads w' = java_threads (self_updated w) /\
    global_epoch w' = global_epoch w /\
    pending_sync w' = pending_sync w.
Proof.
  intros this w.
  assert (H : may_check w = true /\ @is_uintx LP64_debug (required_frontier this))
    by (vm_compute; intuition discriminate).
  split; [exact H|].
  exact (@native_check_synchronized_inner_decides LP64_debug this w
           (proj1 H) (proj2 H)).
Defined.

(** X12.  The memoized fast path of the native-comparison generation: with
    the assertions met, an initiator whose required frontier
    [global_frontier] has already reached gets [true] from
    [check_synchronized_inner] on the frontier test alone, whatever the
    epochs of the other threads are; nothing is written but the caller's own
    epoch, so [global_frontier] stays where it was. *)
Theorem native_check_synchronized_inner_memoizes
    {P : Platform} (this : G1EpochSynchronizer) (w : World) :
  may_check w = true ->
  required_frontier this <= global_frontier w ->
  NativeCompare.check_synchronized_inner this w = Some (true, self_updated w) /\
  global_frontier (self_updated w) = global_frontier w.
Proof.
  intros Hmay Hle. rewrite native_check_synchronized_inner_run, Hmay.
  rewrite andb_false_r. cbv zeta.
  destruct (self_updated_fields w) as (_ & Hgf & _).
  rewrite Hgf.
  destruct (Z.ltb_spec (global_frontier w) (required_frontier this)); [lia|].
  split; reflexivity.
Qed.

Lemma native_check_synchronized_inner_memoizes_witness :
  let this := {| required_frontier := 19 |} in
  let w := java_caller_world 0 21 20 1 [quiet_thread 20; quiet_thread 21; quiet_thread 3] in
  (may_check w = true /\ required_frontier this <= global_frontier w) /\
  @NativeCompare.check_synchronized_inner LP64_debug this w
    = Some (true, self_updated w) /\
  global_frontier (self_updated w) = global_frontier w.
Proof.
  intros this w.
  assert (H : may_check w = true /\ required_frontier this <= global_frontier w)
    by (vm_compute; intuition discriminate).
  split; [exact H|].
  exact (@native_check_synchronized_inner_memoizes LP64_debug this w
           (proj1 H) (proj2 H)).
Defined.

(** ** Scheduling and running the reset *)

Section Overflow.
Context {P : Platform}.

Lemma handle_overflow_run threshold required_frontier w :
  NativeSync.handle_overflow threshold required_frontier w =
    if (required_frontier >? threshold) && negb (reset_all_epoch_scheduled w)
    then Some (true, set_reset_all_epoch_scheduled true w)
    else Some (false, w).
Proof.
  unfold NativeSync.handle_overflow,
    NativeSync.Atomic_cmpxchg_reset_all_epoch_scheduled.
  run_m. destruct (required_frontier >? threshold); simpl; [|reflexivity].
  destruct (reset_all_epoch_scheduled w) eqn:Hflag; simpl; rewrite ?Hflag;
    reflexivity.
Qed.

Lemma native_start_synchronizing_run threshold w :
  NativeSync.start_synchronizing threshold w =
    if ASSERT && at_safepoint w then None
    else
      let f := uintx_add (global_epoch w) 1 in
      let w1 := set_global_epoch f
                  (if ASSERT
                   then set_pending_sync (uintx_add (pending_sync w) 1) w
                   else w) in
      if (f >? threshold) && negb (reset_all_epoch_scheduled w)
      then Some ((f, true), set_reset_all_epoch_scheduled true w1)
      else Some ((f, false), w1).
Proof.
  unfold NativeSync.start_synchronizing, Atomic_add_global_epoch.
  unfold m_bind at 1 2 3 4. unfold assert_not_at_safepoint, m_bind at 1.
  unfold m_get at 1. unfold assert_that. rewrite negb_involutive.
  destruct ASSERT; simpl.
  - destruct (at_safepoint w); [reflexivity|].
    unfold m_bind, m_modify, m_get, m_ret. simpl.
    rewrite handle_overflow_run. simpl.
    destruct ((_ >? _) && _); reflexivity.
  - unfold m_bind, m_modify, m_get, m_ret. simpl.
    rewrite handle_overflow_run. simpl.
    destruct ((_ >? _) && _); reflexivity.
Qed.

(** Whether one of [n] successive frontiers after [epoch] exceeds the
    threshold. *)
Fixpoint crosses_threshold (threshold epoch : Z) (n : nat) : bool :=
  match n with
  | O => false
  | S n' =>
      (uintx_add epoch 1 >? threshold)
      || crosses_threshold threshold (uintx_add epoch 1) n'
  end.

Lemma start_synchronizing_times_run threshold n : forall w k w',
  NativeSync.start_synchronizing_times threshold n w = Some (k, w') ->
  k = (if negb (reset_all_epoch_scheduled w)
          && crosses_threshold threshold (global_epoch w) n
       then 1%nat else 0%nat) /\
  reset_all_epoch_scheduled w'
    = reset_all_epoch_scheduled w
      || crosses_threshold threshold (global_epoch w) n.
Proof.
  induction n as [|n IH]; intros w k w'; simpl.
  - intros [= <- <-]. rewrite andb_false_r, orb_false_r. auto.
  - unfold m_bind at 1. rewrite native_start_synchronizing_run.
    destruct (ASSERT && at_safepoint w); [discriminate|]. cbv zeta.
    set (f := uintx_add (global_epoch w) 1).
    set (w1 := set_global_epoch f
                 (if ASSERT
                  then set_pending_sync (uintx_add (pending_sync w) 1) w
                  else w)).
    assert (Hflag1 : reset_all_epoch_scheduled w1 = reset_all_epoch_scheduled w)
      by (subst w1; destruct ASSERT; reflexivity).
    assert (Hge1 : global_epoch w1 = f)
      by (subst w1; destruct ASSERT; reflexivity).
    destruct (f >? threshold) eqn:Hf;
      destruct (reset_all_epoch_scheduled w) eqn:Hflag; cbn [andb negb orb];
      unfold m_bind.
    + destruct (NativeSync.start_synchronizing_times threshold n w1)
        as [[k1 w2]|] eqn:Hrest; [|discriminate].
      apply IH in Hrest as (Hk & Hs). rewrite Hflag1 in Hk, Hs.
      unfold m_ret. intros [= <- <-]. rewrite Hs, Hk. split; reflexivity.
    + destruct (NativeSync.start_synchronizing_times threshold n
                  (set_reset_all_epoch_scheduled true w1))
        as [[k1 w2]|] eqn:Hrest; [|discriminate].
      apply IH in Hrest as (Hk & Hs). simpl in Hk, Hs.
      unfold m_ret. intros [= <- <-]. rewrite Hs, Hk. split; reflexivity.
    + destruct (NativeSync.start_synchronizing_times threshold n w1)
        as [[k1 w2]|] eqn:Hrest; [|discriminate].
      apply IH in Hrest as (Hk & Hs). rewrite Hflag1 in Hk, Hs.
      unfold m_ret. intros [= <- <-]. rewrite Hs, Hk. split; reflexivity.
    + destruct (NativeSync.start_synchronizing_times threshold n w1)
        as [[k1 w2]|] eqn:Hrest; [|discriminate].
      apply IH in Hrest as (Hk & Hs). rewrite Hflag1, Hge1 in Hk, Hs.
      unfold m_ret. intros [= <- <-]. rewrite Hs, Hk. split; reflexivity.
Qed.

End Overflow.

(** X13.  Scheduling the reset is single-shot: along any number of
    successive [start_synchronizing] calls with no reset in between, exactly
    one call schedules the reset task when the flag was clear and one of the
    frontiers handed out exceeds the threshold, and none does otherwise; the
    flag is set from the first such frontier on. *)
Theorem reset_is_scheduled_at_most_once
    {P : Platform} (threshold : Z) (n : nat) (w w' : World) (k : nat) :
  NativeSync.start_synchronizing_times threshold n w = Some (k, w') ->
  (k <= 1)%nat /\
  (k = 1%nat <->
     reset_all_epoch_scheduled w = false
     /\ crosses_threshold threshold (global_epoch w) n = true) /\
  (reset_all_epoch_scheduled w' = true <->
     reset_all_epoch_scheduled w = true
     \/ crosses_threshold threshold (global_epoch w) n = true).
Proof.
  intros Hrun. apply start_synchronizing_times_run in Hrun as (-> & ->).
  destruct (reset_all_epoch_scheduled w), (crosses_threshold _ _ n); simpl;
    intuition (try discriminate; auto).
Qed.

Lemma reset_is_scheduled_at_most_once_witness :
  let w := scenario_world 98 90 0 [quiet_thread 98] in
  exists w',
    @NativeSync.start_synchronizing_times LP64_debug 100 5 w = Some (1%nat, w') /\
    (1 <= 1)%nat /\
    reset_all_epoch_scheduled w' = true /\
    global_epoch w' = 103 /\ pending_sync w' = 5.
Proof.
  intros w.
  assert (Hrun : @NativeSync.start_synchronizing_times LP64_debug 100 5 w
                 = Some (1%nat,
                         set_reset_all_epoch_scheduled true
                           (scenario_world 103 90 5 [quiet_thread 98])))
    by (vm_compute; reflexivity).
  eexists. split; [exact Hrun|].
  pose proof (@reset_is_scheduled_at_most_once LP64_debug 100 5 w _ 1%nat Hrun)
    as (Hle & _ & Hflag).
  split; [exact Hle|]. split; [|split; reflexivity].
  apply Hflag. right. vm_compute. reflexivity.
Defined.

Section AfterReset.
Context {P : Platform}.

Lemma G1EpochResetTask_execute_run w :
  G1EpochResetTask_execute w =
    if ASSERT && negb (pending_sync w
                       =? to_uintx (Z.of_nat (length (deferred_buffer w))))
    then None
    else Some (tt, resume (current_thread w)
                     (world_after_reset (enter_safepoint_on_VM_thread w))).
Proof.
  unfold G1EpochResetTask_execute, VMThread_execute, VM_G1ResetEpoch_doit.
  rewrite reset_all_epoch_run. simpl. rewrite !andb_false_r.
  destruct (ASSERT && _); reflexivity.
Qed.

Lemma fold_MIN2_zero es :
  es <> [] -> Forall (fun e => e = 0) es ->
  fold_left MIN2 es max_uintx = 0.
Proof.
  intros Hne Hall.
  destruct (fold_MIN2_le es max_uintx) as (_ & Hle & Hin).
  destruct es as [|e es]; [contradiction|].
  pose proof (Forall_inv Hall) as He. pose proof (Forall_inv Hle) as Hle0.
  cbv beta in He, Hle0. subst e.
  destruct Hin as [Hmax | Hin].
  - exfalso. rewrite Hmax, max_uintx_eq in Hle0.
    pose proof uintx_modulus_half. pose proof uintx_half_pos. lia.
  - rewrite List.Forall_forall in Hall. apply Hall. exact Hin.
Qed.

Lemma alter_reset_epoch i (ts : list JavaThread) :
  alter (set_epoch 0) i (map NativeCompare.G1ResetEpochClosure_do_thread ts)
    = map NativeCompare.G1ResetEpochClosure_do_thread ts.
Proof.
  revert i. induction ts as [|t ts IH]; intros [|i]; simpl; try reflexivity.
  f_equal. apply IH.
Qed.

End AfterReset.

(** X14.  An initiator that is still pending when the reset runs does not
    complete after it: with at least one Java thread and a required frontier
    above zero, [check_synchronized_inner] called after [reset_all_epoch],
    by a Java or a refinement thread, returns [false] and leaves every epoch
    and the frontier at zero.  It has to wait until the epochs have grown
    back to its frontier. *)
Theorem stale_initiator_waits_after_reset
    {P : Platform} (this : G1EpochSynchronizer) (cur : Thread) (w w1 : World) :
  NativeCompare.reset_all_epoch w = Some (tt, w1) ->
  java_threads w <> [] ->
  0 < required_frontier this ->
  is_Java_thread cur || is_ConcurrentGC_thread cur = true ->
  exists w2,
    NativeCompare.check_synchronized_inner this (resume cur w1)
      = Some (false, w2) /\
    global_frontier w2 = 0 /\ global_epoch w2 = 0 /\
    Forall (fun t => epoch t = 0) (java_threads w2).
Proof.
  intros Hreset Hne HR Hcur. rewrite reset_all_epoch_run in Hreset.
  repeat match type of Hreset with
         | (if ?b then None else _) = _ => destruct b; [discriminate|]
         end.
  injection Hreset as <-.
  rewrite native_check_synchronized_inner_run.
  assert (Hmay : may_check (resume cur (world_after_reset w)) = true).
  { unfold may_check, own_epoch_in_order. simpl. rewrite Hcur. simpl.
    destruct cur as [i| |]; try reflexivity.
    destruct (map _ (java_threads w) !! i) as [t|] eqn:Ht; [|reflexivity].
    pose proof (reset_closure_zeroes (java_threads w)) as Hzero.
    rewrite Forall_lookup in Hzero. apply Hzero in Ht. simpl. rewrite Ht.
    reflexivity. }
  rewrite Hmay, andb_false_r. cbv zeta.
  assert (Hself : self_updated (resume cur (world_after_reset w))
                  = resume cur (world_after_reset w)).
  { unfold self_updated. simpl. destruct cur; try reflexivity.
    unfold set_java_threads. simpl. rewrite alter_reset_epoch. reflexivity. }
  rewrite Hself. simpl global_frontier.
  destruct (Z.ltb_spec 0 (required_frontier this)); [|lia].
  rewrite native_check_frontier_helper_run.
  unfold native_scanned_min_epoch. rewrite native_scan_fields. simpl.
  rewrite fold_MIN2_zero.
  - destruct (Z.ltb_spec 0 (required_frontier this)); [|lia].
    eexists. split; [reflexivity|]. simpl.
    split; [reflexivity|]. split; [reflexivity|]. apply reset_closure_zeroes.
  - destruct (java_threads w); [contradiction | discriminate].
  - rewrite List.Forall_map. apply reset_closure_zeroes.
Qed.

Lemma stale_initiator_waits_after_reset_witness :
  let this := {| required_frontier := 4611686018427387904 |} in
  (@NativeCompare.reset_all_epoch LP64_debug reset_world
     = Some (tt, world_after_reset reset_world) /\
   java_threads reset_world <> [] /\
   0 < required_frontier this /\
   is_Java_thread ConcurrentGCThread || is_ConcurrentGC_thread ConcurrentGCThread
     = true) /\
  exists w2,
    @NativeCompare.check_synchronized_inner LP64_debug this
       (resume ConcurrentGCThread (world_after_reset reset_world))
      = Some (false, w2) /\
    global_frontier w2 = 0 /\ global_epoch w2 = 0 /\
    Forall (fun t => epoch t = 0) (java_threads w2).
Proof.
  intros this.
  assert (H : @NativeCompare.reset_all_epoch LP64_debug reset_world
                = Some (tt, world_after_reset reset_world) /\
              java_threads reset_world <> [] /\
              0 < required_frontier this /\
              is_Java_thread ConcurrentGCThread
              || is_ConcurrentGC_thread ConcurrentGCThread = true).
  { split; [vm_compute; reflexivity|]. split; [discriminate|].
    split; reflexivity. }
  split; [exact H|].
  destruct H as (Hreset & Hne & HR & Hcur).
  exact (@stale_initiator_waits_after_reset LP64_debug this ConcurrentGCThread
           reset_world (world_after_reset reset_world) Hreset Hne HR Hcur).
Defined.

(** X15.  [G1EpochResetTask::execute] hands [reset_all_epoch] to the VM
    thread, so its safepoint and VM-thread assertions always hold: from any
    world the task fails only in a debug build in which [pending_sync]
    differs from the length of the deferred buffer; otherwise the caller
    goes on, outside the safepoint, with both counters and every thread
    epoch at zero, the schedule flag cleared and the same threads. *)
Theorem reset_task_execute_resets {P : Platform} (w : World) :
  let D := to_uintx (Z.of_nat (length (deferred_buffer w))) in
  if ASSERT && negb (pending_sync w =? D)
  then G1EpochResetTask_execute w = None
  else exists w',
      G1EpochResetTask_execute w = Some (tt, w') /\
      global_epoch w' = 0 /\ global_frontier w' = 0 /\
      Forall (fun t => epoch t = 0) (java_threads w') /\
      length (java_threads w') = length (java_threads w) /\
      reset_all_epoch_scheduled w' = false /\
      current_thread w' = current_thread w /\
      at_safepoint w' = false /\
      pending_sync w' = pending_sync w.
Proof.
  cbv zeta. rewrite G1EpochResetTask_execute_run.
  destruct (ASSERT && _); [reflexivity|].
  eexists. split; [reflexivity|]. simpl.
  split; [reflexivity|]. split; [reflexivity|].
  split; [apply reset_closure_zeroes|].
  split; [apply length_map|]. repeat split.
Qed.

(** ** The scans, in general *)

(** X16.  The native-comparison scan finds the minimum: over in-range
    epochs [min_epoch] ends on [max_uintx] when there is no Java thread,
    and otherwise on one of the epochs met, below or equal to each of them. *)
Theorem native_scan_finds_minimum
    {P : Platform} (required_frontier : Z) (collect : bool)
    (ts : list JavaThread) :
  Forall (fun t => is_uintx (epoch t)) ts ->
  let m := NativeCompare.min_epoch
             (NativeCompare.java_threads_do
                (NativeCompare.new_closure required_frontier collect) 0 ts) in
  (ts = [] -> m = max_uintx) /\
  (ts <> [] -> In m (map epoch ts)) /\
  Forall (fun e => m <= e) (map epoch ts).
Proof.
  intros Hall. cbv zeta. destruct ts as [|t ts].
  - split; [reflexivity|]. split; [contradiction | constructor].
  - destruct (native_scan_min_epoch_is_minimum required_frontier collect t ts Hall)
      as (Hin & Hle).
    split; [discriminate|]. split; [intros _; exact Hin | exact Hle].
Qed.

Lemma native_scan_finds_minimum_witness :
  let ts := [quiet_thread 9; quiet_thread 4; quiet_thread 7] in
  Forall (fun t => @is_uintx LP64_debug (epoch t)) ts /\
  In (NativeCompare.min_epoch
        (NativeCompare.java_threads_do
           (@NativeCompare.new_closure LP64_debug 6 true) 0 ts))
     (map epoch ts).
Proof.
  intros ts.
  assert (H : Forall (fun t => @is_uintx LP64_debug (epoch t)) ts)
    by (repeat constructor; vm_compute; intuition discriminate).
  split; [exact H|].
  apply (@native_scan_finds_minimum LP64_debug 6 true ts H). discriminate.
Defined.

(** X17.  In the wrap-aware generations the scan cannot complete a
    synchronization while the counters are in the lower half of their
    range: with the assertions met (outside a safepoint; the caller a
    refinement thread, or a Java thread whose own epoch is not above
    [global_epoch]), a required frontier below [2 ^ (BitsPerWord - 1)] that
    [global_frontier] happens before, and every epoch [e] (the caller's own
    brought up to date) with [e + 1 < 2 ^ (BitsPerWord - 1)],
    [check_synchronized_inner] returns [false] and changes nothing but the
    caller's own epoch. *)
Theorem wrap_aware_scan_cannot_complete
    {P : Platform} (this : G1EpochSynchronizer) (w : World) :
  may_check w = true ->
  is_uintx (required_frontier this) ->
  required_frontier this < uintx_half ->
  frontier_happens_before (global_frontier w) (required_frontier this) = true ->
  Forall (fun t => is_uintx (epoch t) /\ epoch t + 1 < uintx_half)
    (java_threads (self_updated w)) ->
  AsyncHandshake.check_synchronized_inner this w = Some (false, self_updated w).
Proof.
  intros Hmay HR Hlow HG Hts.
  rewrite check_synchronized_inner_run, Hmay, andb_false_r. cbv zeta.
  destruct (self_updated_fields w) as (_ & -> & _). rewrite HG.
  rewrite wrap_check_frontier_helper_run.
  unfold scanned_min_epoch. rewrite async_scan_min_epoch_stays by exact Hts.
  assert (Hmax : frontier_happens_before max_uintx (required_frontier this) = true).
  { apply frontier_happens_before_true.
    rewrite uintx_sub_cases by (auto using is_uintx_max_uintx).
    rewrite max_uintx_eq. pose proof uintx_modulus_half. unfold is_uintx in HR.
    destruct (Z.leb_spec (required_frontier this) (uintx_modulus - 1)); lia. }
  rewrite Hmax. reflexivity.
Qed.

Lemma wrap_aware_scan_cannot_complete_witness :
  let this := {| required_frontier := 6 |} in
  let w := java_caller_world 2 6 5 1 [quiet_thread 6; quiet_thread 6; quiet_thread 5] in
  (may_check w = true /\
   @is_uintx LP64_debug (required_frontier this) /\
   required_frontier this < @uintx_half LP64_debug /\
   @frontier_happens_before LP64_debug (global_frontier w) (required_frontier this)
     = true /\
   Forall (fun t => @is_uintx LP64_debug (epoch t)
                    /\ epoch t + 1 < @uintx_half LP64_debug)
     (java_threads (self_updated w))) /\
  @AsyncHandshake.check_synchronized_inner LP64_debug this w
    = Some (false, self_updated w).
Proof.
  intros this w.
  assert (H : may_check w = true /\
              @is_uintx LP64_debug (required_frontier this) /\
              required_frontier this < @uintx_half LP64_debug /\
              @frontier_happens_before LP64_debug (global_frontier w)
                 (required_frontier this) = true /\
              Forall (fun t => @is_uintx LP64_debug (epoch t)
                               /\ epoch t + 1 < @uintx_half LP64_debug)
                (java_threads (self_updated w))).
  { split; [reflexivity|]. split; [vm_compute; intuition discriminate|].
    split; [vm_compute; reflexivity|]. split; [vm_compute; reflexivity|].
    repeat constructor; vm_compute; intuition discriminate. }
  split; [exact H|].
  destruct H as (H1 & H2 & H3 & H4 & H5).
  exact (@wrap_aware_scan_cannot_complete LP64_debug this w H1 H2 H3 H4 H5).
Defined.

(** ** The statistics, continued *)

(** The counting members of g1EpochSynchronizerStats.hpp. *)
Module StatsCounters.
Section Counters.
Context {P : Platform} {T : TickspanOps}.

(** [void inc_fast_sync_time(Tickspan t) { _fast_sync_time += t; }] *)
Definition inc_fast_sync_time (t : Tickspan) (this : Stats.G1EpochSynchronizerStats)
  : Stats.G1EpochSynchronizerStats :=
  {| Stats.fast_sync_time := Tickspan_add (Stats.fast_sync_time this) t;
     Stats.deferred_sync_time := Stats.deferred_sync_time this;
     Stats.fast_syncs := Stats.fast_syncs this;
     Stats.deferred_syncs := Stats.deferred_syncs this |}.

(** [void inc_deferred_sync_time(Tickspan t) { _deferred_sync_time += t; }] *)
Definition inc_deferred_sync_time (t : Tickspan)
    (this : Stats.G1EpochSynchronizerStats) : Stats.G1EpochSynchronizerStats :=
  {| Stats.fast_sync_time := Stats.fast_sync_time this;
     Stats.deferred_sync_time := Tickspan_add (Stats.deferred_sync_time this) t;
     Stats.fast_syncs := Stats.fast_syncs this;
     Stats.deferred_syncs := Stats.deferred_syncs this |}.

(** [void inc_fast_syncs() { ++_fast_syncs; }] *)
Definition inc_fast_syncs (this : Stats.G1EpochSynchronizerStats)
  : Stats.G1EpochSynchronizerStats :=
  {| Stats.fast_sync_time := Stats.fast_sync_time this;
     Stats.deferred_sync_time := Stats.deferred_sync_time this;
     Stats.fast_syncs := uintx_add (Stats.fast_syncs this) 1;
     Stats.deferred_syncs := Stats.deferred_syncs this |}.

(** [void inc_deferred_syncs() { ++_deferred_syncs; }] *)
Definition inc_deferred_syncs (this : Stats.G1EpochSynchronizerStats)
  : Stats.G1EpochSynchronizerStats :=
  {| Stats.fast_sync_time := Stats.fast_sync_time this;
     Stats.deferred_sync_time := Stats.deferred_sync_time this;
     Stats.fast_syncs := Stats.fast_syncs this;
     Stats.deferred_syncs := uintx_add (Stats.deferred_syncs this) 1 |}.

End Counters.
End StatsCounters.

(** Addition of intervals is commutative and associative. *)
Class TickspanCommutative (T : TickspanOps) : Prop := {
  Tickspan_add_comm : forall a b, Tickspan_add a b = Tickspan_add b a;
  Tickspan_add_assoc :
    forall a b c,
      Tickspan_add (Tickspan_add a b) c = Tickspan_add a (Tickspan_add b c)
}.

Lemma jlong_add_assoc a b c :
  jlong_add (jlong_add a b) c = jlong_add a (jlong_add b c).
Proof.
  unfold jlong_add, to_jlong. f_equal.
  replace ((a + b + 2 ^ 63) mod 2 ^ 64 - 2 ^ 63 + c + 2 ^ 63)
    with ((a + b + 2 ^ 63) mod 2 ^ 64 + c) by lia.
  replace (a + ((b + c + 2 ^ 63) mod 2 ^ 64 - 2 ^ 63) + 2 ^ 63)
    with (a + (b + c + 2 ^ 63) mod 2 ^ 64) by lia.
  rewrite Zplus_mod_idemp_l, Zplus_mod_idemp_r. f_equal. lia.
Qed.

Lemma jlong_Tickspan_commutative : TickspanCommutative jlong_Tickspan.
Proof.
  split; simpl.
  - intros a b. unfold jlong_add. f_equal. lia.
  - apply jlong_add_assoc.
Qed.

Section StatsFacts.
Context {P : Platform}.

Lemma uintx_add_comm a b : uintx_add a b = uintx_add b a.
Proof. unfold uintx_add. f_equal. lia. Qed.

Lemma uintx_add_assoc a b c :
  uintx_add (uintx_add a b) c = uintx_add a (uintx_add b c).
Proof.
  unfold uintx_add, to_uintx.
  rewrite Zplus_mod_idemp_l, Zplus_mod_idemp_r. f_equal. lia.
Qed.

Lemma uintx_add_iter a n :
  Nat.iter n (fun x => uintx_add x 1) (to_uintx a) = to_uintx (a + Z.of_nat n).
Proof.
  induction n as [|n IH].
  - simpl. f_equal. lia.
  - rewrite Nat.iter_succ, IH. unfold uintx_add, to_uintx.
    rewrite Zplus_mod_idemp_l. f_equal. lia.
Qed.

End StatsFacts.

(** X18.  Merging statistics does not depend on the order: [operator+] is
    commutative and associative. *)
Theorem stats_plus_commutative_associative
    {P : Platform} {T : TickspanOps} (C : TickspanCommutative T)
    (x y z : Stats.G1EpochSynchronizerStats) :
  Stats.plus x y = Stats.plus y x /\
  Stats.plus (Stats.plus x y) z = Stats.plus x (Stats.plus y z).
Proof.
  destruct x, y, z. unfold Stats.plus, Stats.add_assign. simpl.
  split; f_equal;
    auto using uintx_add_comm, uintx_add_assoc, Tickspan_add_comm,
      Tickspan_add_assoc.
Qed.

Lemma stats_plus_commutative_associative_witness :
  @Stats.plus LP64_debug jlong_Tickspan stats_sample_x stats_sample_y
    = @Stats.plus LP64_debug jlong_Tickspan stats_sample_y stats_sample_x.
Proof.
  exact (proj1 (@stats_plus_commutative_associative LP64_debug jlong_Tickspan
                  jlong_Tickspan_commutative
                  stats_sample_x stats_sample_y stats_sample_x)).
Defined.

(** X19.  The difference of two snapshots counts the synchronizations in
    between: after [n] calls of [inc_fast_syncs] and [m] calls of
    [inc_deferred_syncs] on a value with in-range counters, [operator-] with
    the earlier value has [fast_syncs = n] and [deferred_syncs = m], modulo
    [2 ^ BitsPerWord]. *)
Theorem stats_difference_counts_increments
    {P : Platform} {T : TickspanOps}
    (x : Stats.G1EpochSynchronizerStats) (n m : nat) :
  is_uintx (Stats.fast_syncs x) -> is_uintx (Stats.deferred_syncs x) ->
  let later := Nat.iter m StatsCounters.inc_deferred_syncs
                 (Nat.iter n StatsCounters.inc_fast_syncs x) in
  Stats.fast_syncs (Stats.minus later x) = to_uintx (Z.of_nat n) /\
  Stats.deferred_syncs (Stats.minus later x) = to_uintx (Z.of_nat m).
Proof.
  intros Hf Hd. cbv zeta.
  assert (Hfast : forall k y,
    Stats.fast_syncs (Nat.iter k StatsCounters.inc_fast_syncs y)
      = Nat.iter k (fun v => uintx_add v 1) (Stats.fast_syncs y) /\
    Stats.deferred_syncs (Nat.iter k StatsCounters.inc_fast_syncs y)
      = Stats.deferred_syncs y).
  { induction k as [|k IH]; intros y; [split; reflexivity|].
    rewrite !Nat.iter_succ. simpl. destruct (IH y) as (-> & ->).
    split; reflexivity. }
  assert (Hdef : forall k y,
    Stats.deferred_syncs (Nat.iter k StatsCounters.inc_deferred_syncs y)
      = Nat.iter k (fun v => uintx_add v 1) (Stats.deferred_syncs y) /\
    Stats.fast_syncs (Nat.iter k StatsCounters.inc_deferred_syncs y)
      = Stats.fast_syncs y).
  { induction k as [|k IH]; intros y; [split; reflexivity|].
    rewrite !Nat.iter_succ. simpl. destruct (IH y) as (-> & ->).
    split; reflexivity. }
  unfold Stats.minus, Stats.sub_assign. simpl.
  destruct (Hdef m (Nat.iter n StatsCounters.inc_fast_syncs x)) as (-> & ->).
  destruct (Hfast n x) as (-> & ->).
  rewrite <- (to_uintx_id _ Hf) at 1. rewrite <- (to_uintx_id _ Hd) at 1.
  rewrite !uintx_add_iter. unfold uintx_sub, to_uintx.
  rewrite !Zminus_mod_idemp_l. split; f_equal; lia.
Qed.

Lemma stats_difference_counts_increments_witness :
  (@is_uintx LP64_debug (Stats.fast_syncs stats_sample_x) /\
   @is_uintx LP64_debug (Stats.deferred_syncs stats_sample_x)) /\
  Stats.fast_syncs
    (@Stats.minus LP64_debug jlong_Tickspan
       (Nat.iter 2 (@StatsCounters.inc_deferred_syncs LP64_debug jlong_Tickspan)
          (Nat.iter 3 (@StatsCounters.inc_fast_syncs LP64_debug jlong_Tickspan)
             stats_sample_x))
       stats_sample_x) = @to_uintx LP64_debug 3.
Proof.
  assert (H : @is_uintx LP64_debug (Stats.fast_syncs stats_sample_x) /\
              @is_uintx LP64_debug (Stats.deferred_syncs stats_sample_x))
    by (vm_compute; intuition discriminate).
  split; [exact H|].
  exact (proj1 (@stats_difference_counts_increments LP64_debug jlong_Tickspan
                  stats_sample_x 3 2 (proj1 H) (proj2 H))).
Defined.

(** X20.  The difference of two snapshots gives back the time recorded in
    between: after [inc_fast_sync_time t] and [inc_deferred_sync_time u],
    [operator-] with the earlier value has [fast_sync_time = t] and
    [deferred_sync_time = u], and both counters zero. *)
Theorem stats_difference_gives_recorded_time
    {P : Platform} {T : TickspanOps}
    (L : TickspanLaws T) (C : TickspanCommutative T)
    (x : Stats.G1EpochSynchronizerStats) (t u : Tickspan) :
  Stats.valid x -> Tickspan_valid t -> Tickspan_valid u ->
  let later := StatsCounters.inc_deferred_sync_time u
                 (StatsCounters.inc_fast_sync_time t x) in
  Stats.fast_sync_time (Stats.minus later x) = t /\
  Stats.deferred_sync_time (Stats.minus later x) = u /\
  Stats.fast_syncs (Stats.minus later x) = 0 /\
  Stats.deferred_syncs (Stats.minus later x) = 0.
Proof.
  intros (_ & _ & Hf & Hd) Ht Hu. cbv zeta.
  unfold Stats.minus, Stats.sub_assign. simpl.
  rewrite (Tickspan_add_comm (Stats.fast_sync_time x) t),
    (Tickspan_add_comm (Stats.deferred_sync_time x) u).
  rewrite !Tickspan_add_sub by assumption.
  unfold uintx_sub. rewrite !Z.sub_diag. unfold to_uintx.
  rewrite Z.mod_0_l by (pose proof uintx_modulus_pos; lia).
  repeat split.
Qed.

Lemma stats_difference_gives_recorded_time_witness :
  let later := @StatsCounters.inc_deferred_sync_time jlong_Tickspan 9
                 (@StatsCounters.inc_fast_sync_time jlong_Tickspan 4
                    stats_sample_x) in
  (@Stats.valid LP64_debug jlong_Tickspan stats_sample_x /\
   is_jlong 4 /\ is_jlong 9) /\
  Stats.fast_sync_time (@Stats.minus LP64_debug jlong_Tickspan later stats_sample_x)
    = 4 /\
  Stats.deferred_sync_time
    (@Stats.minus LP64_debug jlong_Tickspan later stats_sample_x) = 9.
Proof.
  intros later.
  assert (H : @Stats.valid LP64_debug jlong_Tickspan stats_sample_x /\
              is_jlong 4 /\ is_jlong 9)
    by (vm_compute; intuition discriminate).
  split; [exact H|].
  destruct H as (Hx & Ht & Hu).
  pose proof (@stats_difference_gives_recorded_time LP64_debug jlong_Tickspan
                jlong_Tickspan_laws jlong_Tickspan_commutative
                stats_sample_x 4 9 Hx Ht Hu) as (H1 & H2 & _).
  split; [exact H1 | exact H2].
Defined.

(** ** Arming the polls *)

Section Arming.
Context {P : Platform}.

(** What the arming scan does to one thread: a straggler has its poll
    armed and, when it is parked, its epoch brought up to date. *)
Definition arm_step (epoch_now required_frontier : Z) (t : JavaThread)
  : JavaThread :=
  if frontier_happens_before (epoch t) required_frontier
  then if blocked t
       then set_epoch epoch_now (set_local_poll_armed true t)
       else set_local_poll_armed true t
  else t.

(** The assertions met along the arming scan: no straggler is the current
    thread, and those of [update_epoch_self_or_other] hold for a parked
    straggler. *)
Definition may_arm (w : World) (required_frontier : Z) : Prop :=
  forall i t,
    java_threads w !! i = Some t ->
    frontier_happens_before (epoch t) required_frontier = true ->
    is_thread_at i (current_thread w) = false /\
    (blocked t = true -> at_safepoint w = false /\ epoch t <= global_epoch w).

Lemma set_java_threads_same w : set_java_threads (java_threads w) w = w.
Proof. destruct w. reflexivity. Qed.

Lemma threads_only_eq w w1 :
  threads_only w w1 -> w1 = set_java_threads (java_threads w1) w.
Proof.
  destruct w, w1. unfold threads_only, set_java_threads. simpl.
  intros (-> & -> & -> & -> & -> & -> & -> & _). reflexivity.
Qed.

Lemma arm_poll_do_thread_arm cl i t w :
  ArmPoll.arm_poll cl = true ->
  java_threads w !! i = Some t ->
  (ASSERT = true ->
   frontier_happens_before (epoch t) (ArmPoll.closure_required_frontier cl) = true ->
   is_thread_at i (current_thread w) = false /\
   (blocked t = true -> at_safepoint w = false /\ epoch t <= global_epoch w)) ->
  let R := ArmPoll.closure_required_frontier cl in
  let t' := arm_step (global_epoch w) R t in
  exists w1,
    ArmPoll.do_thread cl i w =
      Some ({| ArmPoll.arm_poll := true;
               ArmPoll.closure_required_frontier := R;
               ArmPoll.min_epoch := wrap_min_step (ArmPoll.min_epoch cl) (epoch t');
               ArmPoll.armed_threads :=
                 if frontier_happens_before (epoch t) R
                 then uintx_add (ArmPoll.armed_threads cl) 1
                 else ArmPoll.armed_threads cl;
               ArmPoll.report_straggler := ArmPoll.report_straggler cl |}, w1) /\
    java_threads w1 !! i = Some t'.
Proof.
  intros Harm Ht Hself. cbv zeta. unfold arm_step.
  unfold ArmPoll.do_thread, load_epoch, ArmPoll.DelegateProcessingScope_processed,
    update_epoch_self_or_other, modify_thread.
  unfold m_bind, m_get, m_ret, m_modify, assert_that.
  rewrite Ht, Harm. simpl.
  destruct (frontier_happens_before (epoch t) (ArmPoll.closure_required_frontier cl)).
  - assert (Hcur : ASSERT && negb (negb (is_thread_at i (current_thread w))) = false).
    { destruct ASSERT; [|reflexivity].
      destruct (Hself eq_refl eq_refl) as [-> _]. reflexivity. }
    rewrite Hcur. simpl. rewrite list_lookup_alter_eq, Ht. simpl.
    destruct (blocked t) eqn:Hb; simpl.
    + rewrite update_epoch_internal_run.
      assert (Hup : ASSERT && negb (may_update i
                      (set_java_threads
                         (alter (set_local_poll_armed true) i (java_threads w)) w))
                    = false).
      { destruct ASSERT; [|reflexivity].
        destruct (Hself eq_refl eq_refl) as [_ Hparked].
        destruct (Hparked eq_refl) as [Hsp Hle].
        unfold may_update. simpl. rewrite Hsp, list_lookup_alter_eq, Ht. simpl.
        apply Z.leb_le in Hle. rewrite Hle. reflexivity. }
      rewrite Hup. simpl. rewrite !list_lookup_alter_eq, Ht. simpl.
      eexists. split; [reflexivity|]. simpl.
      rewrite !list_lookup_alter_eq, Ht. reflexivity.
    + eexists. split; [reflexivity|]. simpl.
      rewrite list_lookup_alter_eq, Ht. reflexivity.
  - eexists. split; [reflexivity | exact Ht].
Qed.

(** The number of armed threads and the running minimum along a scan. *)
Definition armed_step (required_frontier : Z) (armed : Z) (t : JavaThread) : Z :=
  if frontier_happens_before (epoch t) required_frontier
  then uintx_add armed 1 else armed.

Lemma arm_poll_scan_arm n : forall k cl w,
  ArmPoll.arm_poll cl = true ->
  (k + n)%nat = length (java_threads w) ->
  (ASSERT = true -> may_arm w (ArmPoll.closure_required_frontier cl)) ->
  let R := ArmPoll.closure_required_frontier cl in
  let step := arm_step (global_epoch w) R in
  exists cl' w1,
    ArmPoll.java_threads_do cl (seq k n) w = Some (cl', w1) /\
    threads_only w w1 /\
    (forall j, (j < k)%nat -> java_threads w1 !! j = java_threads w !! j) /\
    (forall j, (k <= j)%nat ->
               java_threads w1 !! j = step <$> java_threads w !! j) /\
    ArmPoll.armed_threads cl'
      = fold_left (armed_step R) (drop k (java_threads w))
          (ArmPoll.armed_threads cl) /\
    ArmPoll.min_epoch cl'
      = fold_left wrap_min_step (map epoch (map step (drop k (java_threads w))))
          (ArmPoll.min_epoch cl).
Proof.
  induction n as [|n IH]; intros k cl w Harm Hlen Hself; cbv zeta; simpl.
  - exists cl, w. split; [reflexivity|]. split; [apply threads_only_refl|].
    split; [reflexivity|]. rewrite drop_ge by lia. simpl.
    split; [|split; reflexivity].
    intros j Hj. rewrite (lookup_ge_None_2 (java_threads w) j) by lia.
    reflexivity.
  - destruct (lookup_lt_is_Some_2 (java_threads w) k) as [t Ht]; [lia|].
    destruct (arm_poll_do_thread_arm cl k t w Harm Ht
                (fun HA => Hself HA k t Ht)) as (w1 & Hone & Hk).
    cbv zeta in Hone, Hk. unfold m_bind. rewrite Hone.
    pose proof (arm_poll_do_thread_frame _ _ _ _ _ Hone) as (Hf1 & Hl1 & _).
    pose proof Hf1 as (Hge1 & _ & _ & _ & _ & Hct1 & Hsp1 & Hlen1).
    match goal with
    | |- context [ArmPoll.java_threads_do ?c (seq (S k) n) w1] =>
        destruct (IH (S k) c w1) as (cl' & w2 & Hrun & Hf2 & Hlo & Hhi & Harmed & Hmin)
    end.
    + reflexivity.
    + rewrite Hlen1. lia.
    + intros HA i t0 Hi Hlt0. simpl in Hlt0. rewrite Hct1, Hsp1, Hge1.
      destruct (Nat.eq_dec i k) as [-> | Hne].
      * rewrite Hk in Hi. injection Hi as <-. revert Hlt0. unfold arm_step.
        destruct (frontier_happens_before (epoch t)
                    (ArmPoll.closure_required_frontier cl)) eqn:Hlt.
        -- destruct (Hself HA k t Ht Hlt) as [Hcur Hparked].
           destruct (blocked t) eqn:Hb; simpl; intros _;
             (split; [exact Hcur|]); rewrite Hb; [|discriminate].
           intros _. split; [apply (Hparked eq_refl) | lia].
        -- rewrite Hlt. discriminate.
      * rewrite Hl1 in Hi by exact Hne. exact (Hself HA i t0 Hi Hlt0).
    + cbv zeta in Hhi, Harmed, Hmin. simpl in Hhi, Harmed, Hmin.
      rewrite Hge1 in Hhi, Hmin.
      assert (Hdrop : drop (S k) (java_threads w1) = drop (S k) (java_threads w)).
      { apply list_eq. intros j. rewrite !lookup_drop. apply Hl1. lia. }
      rewrite Hdrop in Harmed, Hmin.
      exists cl', w2. split; [exact Hrun|].
      split; [eapply threads_only_trans; eassumption|].
      split; [intros j Hj; rewrite Hlo, Hl1 by lia; reflexivity|].
      split.
      * intros j Hj. destruct (Nat.eq_dec j k) as [-> | Hne].
        -- rewrite Hlo, Hk, Ht by lia. reflexivity.
        -- rewrite Hhi, Hl1 by lia. reflexivity.
      * rewrite (drop_S _ _ _ Ht). simpl. split; [exact Harmed | exact Hmin].
Qed.

Lemma armed_fold required_frontier ts : forall k a,
  fold_left (armed_step required_frontier) ts (to_uintx a)
    = to_uintx (a + Z.of_nat (length (straggler_indices required_frontier k ts))).
Proof.
  induction ts as [|t ts IH]; intros k a; simpl.
  - f_equal. lia.
  - unfold armed_step at 2.
    destruct (frontier_happens_before (epoch t) required_frontier); simpl.
    + assert (Hadd : uintx_add (to_uintx a) 1 = to_uintx (a + 1))
        by (unfold uintx_add, to_uintx; apply Zplus_mod_idemp_l).
      rewrite Hadd, (IH (S k)). f_equal. lia.
    + apply IH.
Qed.

End Arming.

Section ArmLocalPolls.
Context {P : Platform}.

Lemma lookup_map_list {A B : Type} (f : A -> B) (l : list A) : forall i,
  map f l !! i = f <$> l !! i.
Proof.
  induction l as [|x l IH]; intros [|i]; simpl; try reflexivity. apply IH.
Qed.

Lemma arm_local_polls_run this w :
  (ASSERT = true -> may_arm w (required_frontier this)) ->
  let R := required_frontier this in
  let ts' := map (arm_step (global_epoch w) R) (java_threads w) in
  let armed := to_uintx (Z.of_nat (length (straggler_indices R 0 (java_threads w)))) in
  let m := fold_left wrap_min_step (map epoch ts') max_uintx in
  let w1 := set_java_threads ts' w in
  ArmPoll.arm_local_polls this w =
    if frontier_happens_before m R then Some (armed, w1)
    else if ASSERT && negb (armed =? 0) then None
         else Some (0, if frontier_happens_before (global_frontier w) m
                       then set_global_frontier m w1 else w1).
Proof.
  intros Hself. cbv zeta.
  destruct (arm_poll_scan_arm (length (java_threads w)) 0
              (ArmPoll.new_closure (required_frontier this) true false) w
              eq_refl eq_refl Hself)
    as (cl & w1 & Hrun & Hframe & _ & Hhi & Harmed & Hmin).
  cbv zeta in Hhi, Harmed, Hmin. simpl in Hhi, Harmed, Hmin.
  assert (Hts : java_threads w1
                = map (arm_step (global_epoch w) (required_frontier this))
                    (java_threads w)).
  { apply list_eq. intros j. rewrite lookup_map_list. apply Hhi. lia. }
  rewrite (threads_only_eq _ _ Hframe), Hts in Hrun.
  rewrite drop_0 in Harmed, Hmin.
  assert (H0 : to_uintx 0 = 0)
    by (unfold to_uintx; apply Z.mod_0_l; pose proof uintx_modulus_pos; lia).
  rewrite <- H0 in Harmed at 1.
  rewrite (armed_fold _ _ 0%nat) in Harmed. simpl in Harmed.
  unfold ArmPoll.arm_local_polls, ArmPoll.all_java_threads.
  unfold m_bind at 1 2. unfold m_get, m_ret. unfold m_bind at 1.
  rewrite Hrun. unfold m_bind. rewrite wrap_check_frontier_helper_run.
  rewrite Hmin, Harmed.
  destruct (frontier_happens_before _ (required_frontier this)); [reflexivity|].
  simpl global_frontier. unfold assert_that.
  destruct (frontier_happens_before (global_frontier w) _);
    rewrite negb_involutive || idtac;
    destruct (ASSERT && negb _); reflexivity.
Qed.

End ArmLocalPolls.

(** X21.  [arm_local_polls], called where the assertions of its scan are met
    (no straggler is the calling thread; outside a safepoint and with an
    epoch not above the global epoch for a parked straggler), arms the poll
    of each thread whose epoch happens before the required frontier and of
    no other, brings the epoch of the parked ones among them up to the
    global epoch, and changes no other field of any thread.  When the
    minimum of the epochs so left still happens before the frontier it
    returns the number of threads armed.  Otherwise a debug build in which
    some thread had been armed fails the assertion [armed == 0]; any other
    build returns zero with the threads as armed, and with [global_epoch]
    and [pending_sync] as they were. *)
Theorem arm_local_polls_arms_the_stragglers
    {P : Platform} (this : G1EpochSynchronizer) (w : World) :
  may_arm w (required_frontier this) ->
  let R := required_frontier this in
  let ts' := map (arm_step (global_epoch w) R) (java_threads w) in
  let armed := to_uintx (Z.of_nat (length (straggler_indices R 0 (java_threads w)))) in
  let m := fold_left wrap_min_step (map epoch ts') max_uintx in
  (frontier_happens_before m R = true ->
   ArmPoll.arm_local_polls this w = Some (armed, set_java_threads ts' w)) /\
  (frontier_happens_before m R = false ->
   if ASSERT && negb (armed =? 0)
   then ArmPoll.arm_local_polls this w = None
   else exists w',
          ArmPoll.arm_local_polls this w = Some (0, w') /\
          java_threads w' = ts' /\
          global_epoch w' = global_epoch w /\
          pending_sync w' = pending_sync w) /\
  Forall2 (fun t t' =>
             blocked t' = blocked t /\ has_operation t' = has_operation t /\
             (frontier_happens_before (epoch t) R = true ->
              local_poll_armed t' = true /\
              epoch t' = (if blocked t then global_epoch w else epoch t)) /\
             (frontier_happens_before (epoch t) R = false -> t' = t))
    (java_threads w) ts'.
Proof.
  intros Hself. cbv zeta.
  pose proof (arm_local_polls_run this w (fun _ => Hself)) as Hrun.
  cbv zeta in Hrun. split; [|split].
  - intros Hm. rewrite Hrun, Hm. reflexivity.
  - intros Hm. rewrite Hrun, Hm.
    destruct (ASSERT && negb _); [reflexivity|].
    eexists. split; [reflexivity|].
    destruct (frontier_happens_before (global_frontier w) _); simpl;
      repeat split.
  - clear Hrun Hself.
    induction (java_threads w) as [|t ts IH]; simpl; constructor; [|exact IH].
    unfold arm_step.
    destruct (frontier_happens_before (epoch t) (required_frontier this));
      [destruct (blocked t) eqn:Hb|]; simpl; rewrite ?Hb;
      repeat split; auto; discriminate.
Qed.

Lemma arm_local_polls_arms_the_stragglers_witness :
  let this := {| required_frontier := 11 |} in
  let parked := {| epoch := 9; has_operation := false;
                   local_poll_armed := false; blocked := true |} in
  let w := java_caller_world 0 11 10 1 [quiet_thread 11; quiet_thread 8; parked] in
  @may_arm LP64_debug w (required_frontier this) /\
  @ArmPoll.arm_local_polls LP64_debug this w
    = Some (2, java_caller_world 0 11 10 1
                 [quiet_thread 11;
                  set_local_poll_armed true (quiet_thread 8);
                  set_epoch 11 (set_local_poll_armed true parked)]).
Proof.
  intros this parked w.
  assert (Hself : @may_arm LP64_debug w (required_frontier this)).
  { intros [|[|[|i]]] t Ht Hlt; simpl in Ht; try discriminate Ht;
      injection Ht as <-; try discriminate Hlt;
      (split; [reflexivity|]); intros Hb; try discriminate Hb.
    split; [reflexivity | simpl; lia]. }
  split; [exact Hself|].
  apply (proj1 (@arm_local_polls_arms_the_stragglers LP64_debug this w Hself)).
  vm_compute. reflexivity.
Defined.

(** ** Progress of [synchronize] *)

Section Progress.
Context {P : Platform}.

Lemma no_straggler_indices required_frontier ts : forall k,
  Forall (fun t => frontier_happens_before (epoch t) required_frontier = false) ts ->
  straggler_indices required_frontier k ts = [].
Proof.
  induction ts as [|t ts IH]; intros k Hall; simpl; [reflexivity|].
  apply Forall_cons_iff in Hall as [Ht Hall]. rewrite Ht. simpl.
  apply IH. exact Hall.
Qed.

Lemma no_straggler_arm_step epoch_now required_frontier ts :
  Forall (fun t => frontier_happens_before (epoch t) required_frontier = false) ts ->
  map (arm_step epoch_now required_frontier) ts = ts.
Proof.
  induction 1 as [|t ts Ht _ IH]; simpl; [reflexivity|].
  unfold arm_step at 1. rewrite Ht, IH. reflexivity.
Qed.

Lemma check_synchronized_of_total g this w :
  may_check w = true ->
  exists r w1,
    check_synchronized_of g this w = Some (r, w1) /\
    java_threads w1 = java_threads (self_updated w) /\
    current_thread w1 = current_thread w /\
    global_epoch w1 = global_epoch w /\
    pending_sync w1 = pending_sync_after r w.
Proof.
  intros Hmay.
  assert (Hcheck : check_synchronized_of g this w
                   = AsyncHandshake.check_synchronized this w).
  { destruct g; [reflexivity | apply arm_poll_check_synchronized_run]. }
  rewrite Hcheck, check_synchronized_run.
  destruct (AsyncHandshake.check_synchronized_inner this w) as [[r w0]|] eqn:Hin.
  - pose proof Hin as Hres.
    apply check_synchronized_inner_result in Hres as (_ & Hw0). cbv zeta in Hw0.
    destruct (self_updated_fields w) as (Hge & _ & Hps & Hct & _).
    assert (Hw0' : java_threads w0 = java_threads (self_updated w) /\
                   current_thread w0 = current_thread w /\
                   global_epoch w0 = global_epoch w /\
                   pending_sync w0 = pending_sync w).
    { subst w0. destruct (_ && _ && _); simpl; auto. }
    destruct Hw0' as (Hts & Hct0 & Hge0 & Hps0).
    unfold pending_sync_after. destruct r.
    + eexists true, _. split; [reflexivity|].
      destruct (pending_sync_decremented_fields w0)
        as (-> & _ & -> & -> & _ & ->).
      simpl. rewrite Hps0. destruct ASSERT; auto.
    + exists false, w0. split; [reflexivity|]. simpl. auto.
  - rewrite check_synchronized_inner_run, Hmay, andb_false_r in Hin.
    cbv zeta in Hin. rewrite wrap_check_frontier_helper_run in Hin.
    repeat match type of Hin with
           | context [if ?b then _ else _] => destruct b
           end; discriminate.
Qed.

Lemma escalate_of_no_straggler g this w :
  Forall (fun t => frontier_happens_before (epoch t) (required_frontier this) = false)
    (java_threads w) ->
  exists w2,
    escalate_of g this w = Some (0, w2) /\
    java_threads w2 = java_threads w /\ pending_sync w2 = pending_sync w.
Proof.
  intros Hall. destruct g; simpl.
  - rewrite async_handshake_run. cbv zeta. rewrite async_scan_threads. simpl.
    rewrite (no_straggler_indices _ _ 0%nat Hall). simpl.
    destruct (frontier_happens_before _ (required_frontier this)).
    + exists w. auto.
    + destruct (frontier_happens_before (global_frontier w) _);
        eexists; split; reflexivity || auto.
  - rewrite arm_local_polls_run.
    + cbv zeta. rewrite (no_straggler_indices _ _ 0%nat Hall).
      rewrite (no_straggler_arm_step _ _ _ Hall). simpl length.
      assert (H0 : to_uintx (Z.of_nat 0) = 0)
        by (unfold to_uintx; apply Z.mod_0_l; pose proof uintx_modulus_pos; lia).
      rewrite H0. simpl. rewrite andb_false_r.
      destruct (frontier_happens_before _ (required_frontier this)).
      * eexists. split; [reflexivity|]. simpl. auto.
      * destruct (frontier_happens_before (global_frontier w) _);
          eexists; (split; [reflexivity|]); simpl; auto.
    + intros _ i t Hi Hlt. exfalso. rewrite List.Forall_forall in Hall.
      rewrite Hall in Hlt; [discriminate|].
      apply list_elem_of_In. eapply list_elem_of_lookup_2. exact Hi.
Qed.

End Progress.

(** X22.  With no straggler, [synchronize] completes at once: called with
    its assertions met (outside a safepoint; the caller a refinement thread,
    or a Java thread whose own epoch is not above [global_epoch]) when no
    thread's epoch (the caller's own brought up to date) happens before the
    required frontier, it returns [true] whatever the clock says, without
    touching any other thread, and a debug build has decremented
    [pending_sync] once. *)
Theorem synchronize_completes_without_stragglers
    {P : Platform} (g : Generation) (this : G1EpochSynchronizer)
    (start_timestamp : Z) (ticks : list Tick) (w : World) :
  may_check w = true ->
  Forall (fun t => frontier_happens_before (epoch t) (required_frontier this) = false)
    (java_threads (self_updated w)) ->
  exists w',
    synchronize_of g this start_timestamp ticks w = Some (Some true, w') /\
    java_threads w' = java_threads (self_updated w) /\
    pending_sync w'
      = (if ASSERT then uintx_sub (pending_sync w) 1 else pending_sync w).
Proof.
  intros Hmay Hall. rewrite synchronize_of_run.
  destruct (check_synchronized_of_total g this w Hmay)
    as (r & w1 & -> & Hts & _ & _ & Hps).
  unfold pending_sync_after in Hps. destruct r.
  - exists w1. split; [reflexivity|]. split; [exact Hts|].
    rewrite Hps. reflexivity.
  - rewrite <- Hts in Hall.
    destruct (escalate_of_no_straggler g this w1 Hall) as (w2 & -> & Hts2 & Hps2).
    simpl. eexists. split; [reflexivity|].
    destruct (pending_sync_decremented_fields w2) as (_ & _ & -> & _ & _ & ->).
    rewrite Hts2, Hps2, Hps, Hts. split; reflexivity.
Qed.

Lemma synchronize_completes_without_stragglers_witness :
  let this := {| required_frontier := 6 |} in
  let w := java_caller_world 0 6 5 1 [quiet_thread 5; quiet_thread 6; quiet_thread 6] in
  (may_check w = true /\
   Forall (fun t => @frontier_happens_before LP64_debug (epoch t)
                      (required_frontier this) = false)
     (java_threads (self_updated w))) /\
  exists w',
    @synchronize_of LP64_debug ByAsyncHandshake this 100 [] w
      = Some (Some true, w') /\
    java_threads w' = java_threads (self_updated w) /\
    pending_sync w' = @uintx_sub LP64_debug (pending_sync w) 1.
Proof.
  intros this w.
  assert (H : may_check w = true /\
              Forall (fun t => @frontier_happens_before LP64_debug (epoch t)
                                 (required_frontier this) = false)
                (java_threads (self_updated w)))
    by (split; [reflexivity | repeat constructor]).
  split; [exact H|].
  exact (@synchronize_completes_without_stragglers LP64_debug ByAsyncHandshake
           this 100 [] w (proj1 H) (proj2 H)).
Defined.

(** X23.  The wait in [synchronize] is bounded by the clock: when the
    readings supplied include one on which the loop gives up (the timeout
    exceeded or, in the poll-arming generation, a yield requested), the
    call does not run past it; it ends with a result or on a failed
    assertion. *)
Theorem synchronize_wait_is_bounded
    {P : Platform} (g : Generation) (this : G1EpochSynchronizer)
    (start_timestamp : Z) (ticks : list Tick) (t : Tick) (w w' : World) :
  gives_up_at g start_timestamp ticks t ->
  synchronize_of g this start_timestamp ticks w <> Some (None, w').
Proof.
  intros Ht. rewrite synchronize_of_run.
  destruct (check_synchronized_of g this w) as [[[|] w1]|]; try discriminate.
  destruct (escalate_of g this w1) as [[n w2]|]; try discriminate.
  destruct (n =? 0); [discriminate|].
  destruct g; eauto using async_spin_ends, arm_poll_spin_ends.
Qed.

Lemma synchronize_wait_is_bounded_witness :
  let this := {| required_frontier := 11 |} in
  let ticks := [idle_tick 102; idle_tick 104; idle_tick 200] in
  let w := straggler_world (quiet_thread 9) in
  @gives_up_at LP64_debug ByAsyncHandshake 100 ticks (idle_tick 104) /\
  @synchronize_of LP64_debug ByAsyncHandshake this 100 ticks w
    <> Some (None, w).
Proof.
  intros this ticks w.
  assert (H : @gives_up_at LP64_debug ByAsyncHandshake 100 ticks (idle_tick 104)).
  { exists [idle_tick 102], [idle_tick 200].
    split; [reflexivity|]. split; [repeat constructor | reflexivity]. }
  split; [exact H|].
  exact (@synchronize_wait_is_bounded LP64_debug ByAsyncHandshake this 100
           ticks (idle_tick 104) w w H).
Defined.

(** ** The wrap-aware order as a distance *)

(** X24.  For [uintx] values, [a] happens before [b] exactly when [b] is
    ahead of [a] by at least one and at most [2 ^ (BitsPerWord - 1)] steps,
    counted with wrap-around; and the order is transitive along two steps
    that together stay within that bound. *)
Theorem frontier_happens_before_is_bounded_lead
    {P : Platform} (a b c : Z) :
  is_uintx a -> is_uintx b -> is_uintx c ->
  (frontier_happens_before a b = true <-> 0 < uintx_sub b a <= uintx_half) /\
  (frontier_happens_before a b = true ->
   frontier_happens_before b c = true ->
   uintx_sub b a + uintx_sub c b <= uintx_half ->
   frontier_happens_before a c = true).
Proof.
  intros Ha Hb Hc.
  assert (Hlead : forall x y, is_uintx x -> is_uintx y ->
            (frontier_happens_before x y = true
             <-> 0 < uintx_sub y x <= uintx_half)).
  { intros x y Hx Hy. rewrite frontier_happens_before_true.
    rewrite (uintx_sub_cases x y), (uintx_sub_cases y x) by assumption.
    pose proof uintx_modulus_half. unfold is_uintx in *.
    destruct (Z.leb_spec y x), (Z.leb_spec x y); lia. }
  split; [apply Hlead; assumption|].
  rewrite !Hlead by assumption. intros Hab Hbc Hsum.
  rewrite (uintx_sub_cases b a), (uintx_sub_cases c b), (uintx_sub_cases c a)
    in * by assumption.
  pose proof uintx_modulus_half. unfold is_uintx in *.
  destruct (Z.leb_spec a b), (Z.leb_spec b c), (Z.leb_spec a c); lia.
Qed.

Lemma frontier_happens_before_is_bounded_lead_witness :
  (@is_uintx LP64_debug 18446744073709551614 /\ @is_uintx LP64_debug 1 /\
   @is_uintx LP64_debug 5) /\
  (@frontier_happens_before LP64_debug 18446744073709551614 1 = true
   <-> 0 < @uintx_sub LP64_debug 1 18446744073709551614
         <= @uintx_half LP64_debug).
Proof.
  assert (H : @is_uintx LP64_debug 18446744073709551614 /\
              @is_uintx LP64_debug 1 /\ @is_uintx LP64_debug 5)
    by (vm_compute; intuition discriminate).
  split; [exact H|].
  destruct H as (Ha & Hb & Hc).
  exact (proj1 (@frontier_happens_before_is_bounded_lead LP64_debug
                  18446744073709551614 1 5 Ha Hb Hc)).
Defined.

(** ** The epoch updater *)

(** X25.  [update_epoch_self] on the Java thread at [i] fails exactly in a
    debug build in which the thread is not the current one, or the VM is at
    a safepoint, or the thread's epoch is above [global_epoch]; otherwise it
    stores [global_epoch] as the epoch of that thread and changes nothing
    else.  [update_epoch_self_or_other] does the same without asking for the
    current thread, and a debug build refuses a thread that is not a Java
    thread.  After either has run, the thread's epoch is the global epoch,
    so that the same update can run again, and changes nothing. *)
Theorem update_epoch_self_brings_epoch_up_to_date
    {P : Platform} (i : nat) (w : World) :
  let updated :=
    set_java_threads (alter (set_epoch (global_epoch w)) i (java_threads w)) w in
  update_epoch_self (JavaThreadAt i) w
    = (if ASSERT && negb (is_thread_at i (current_thread w) && may_update i w)
       then None else Some (tt, updated)) /\
  update_epoch_self_or_other (JavaThreadAt i) w
    = (if ASSERT && negb (may_update i w) then None else Some (tt, updated)) /\
  (forall other,
     is_Java_thread other = false -> ASSERT = true ->
     update_epoch_self_or_other other w = None) /\
  (forall t,
     java_threads w !! i = Some t ->
     java_threads updated !! i = Some (set_epoch (global_epoch w) t)) /\
  (forall j, j <> i -> java_threads updated !! j = java_threads w !! j) /\
  (at_safepoint w = false ->
   update_epoch_self_or_other (JavaThreadAt i) updated = Some (tt, updated)).
Proof.
  cbv zeta. split; [|split; [|split; [|split; [|split]]]].
  - unfold update_epoch_self, m_bind, m_get, assert_that.
    assert (Heq : Thread_eqb (JavaThreadAt i) (current_thread w)
                  = is_thread_at i (current_thread w))
      by (destruct (current_thread w); reflexivity).
    rewrite Heq.
    destruct ASSERT eqn:HA, (is_thread_at i (current_thread w)); simpl;
      rewrite ?update_epoch_internal_run, ?HA; reflexivity.
  - apply update_epoch_internal_run.
  - intros other Hother HA.
    unfold update_epoch_self_or_other, update_epoch_internal.
    destruct other; [discriminate Hother| |]; run_m; rewrite HA;
      destruct (at_safepoint w); reflexivity.
  - intros t Ht. simpl. rewrite list_lookup_alter_eq, Ht. reflexivity.
  - intros j Hj. simpl. apply list_lookup_alter_ne. auto.
  - intros Hsafe. unfold update_epoch_self_or_other.
    rewrite update_epoch_internal_run.
    assert (Hmay : may_update i
                     (set_java_threads
                        (alter (set_epoch (global_epoch w)) i (java_threads w)) w)
                   = true).
    { unfold may_update. simpl. rewrite Hsafe, list_lookup_alter_eq.
      destruct (java_threads w !! i); simpl; [apply Z.leb_refl | reflexivity]. }
    rewrite Hmay, andb_false_r. simpl. rewrite alter_set_epoch_twice.
    reflexivity.
Qed.

Lemma update_epoch_self_brings_epoch_up_to_date_witness :
  let w := java_caller_world 1 7 5 1 [quiet_thread 7; quiet_thread 4] in
  let w' := java_caller_world 1 7 5 1 [quiet_thread 7; quiet_thread 7] in
  @update_epoch_self LP64_debug (JavaThreadAt 1) w = Some (tt, w') /\
  @update_epoch_self_or_other LP64_debug (JavaThreadAt 1) w' = Some (tt, w').
Proof.
  intros w w'.
  pose proof (@update_epoch_self_brings_epoch_up_to_date LP64_debug 1 w)
    as (Hself & _ & _ & _ & _ & Hagain).
  split; [exact Hself | exact (Hagain eq_refl)].
Defined.
